(** * Clean Old Daily Notes: a shallow embedding of [src/main.ts]

    The plugin walks the direct children of the daily-notes folder, keeps the
    markdown files whose basename carries a [YYYY-MM-DD] date that is old
    enough, and rewrites their text: fenced [button] and [tasks] blocks are
    deleted, headings without content are pruned, and the result is trimmed
    and terminated by one newline.

    Strings are JavaScript strings: sequences of UTF-16 code units, here
    [list N].  The built-ins the plugin calls ([trim], [split], [join],
    [RegExp] replace and test, [Date]) are modelled after ECMA-262. *)

From Stdlib Require Import NArith ZArith QArith Lia List Ascii String.
From stdpp Require Import base option list gmap.

Set Default Proof Using "Type".
Local Open Scope N_scope.
Local Open Scope list_scope.

(** ** JavaScript strings *)

Module JS.

Abbreviation char := N (only parsing).
Abbreviation jsstring := (list N) (only parsing).

(** A literal: the code units of an ASCII string. *)
Definition lit (s : String.string) : jsstring :=
  List.map N_of_ascii (list_ascii_of_string s).

Definition LF : char := 10.
Definition BACKTICK : char := 96.
Definition HASH : char := 35.
Definition HYPHEN : char := 45.

(** [WhiteSpace] and [LineTerminator] of ECMA-262: what [\s] matches and
    what [String.prototype.trim] removes. *)
Definition isWhiteSpace (c : char) : bool :=
  (c =? 9) || (c =? 10) || (c =? 11) || (c =? 12) || (c =? 13) || (c =? 32)
  || (c =? 160) || (c =? 5760) || ((8192 <=? c) && (c <=? 8202))
  || (c =? 8232) || (c =? 8233) || (c =? 8239) || (c =? 8287)
  || (c =? 12288) || (c =? 65279).

(** [\d] without the unicode flag: the ASCII digits. *)
Definition isDigit (c : char) : bool := (48 <=? c) && (c <=? 57).

Fixpoint dropWhile {A} (p : A -> bool) (l : list A) : list A :=
  match l with
  | [] => []
  | x :: l' => if p x then dropWhile p l' else l
  end.

Definition trimStart (s : jsstring) : jsstring := dropWhile isWhiteSpace s.
Definition trimEnd (s : jsstring) : jsstring :=
  rev (dropWhile isWhiteSpace (rev s)).

(** [s.trim()] *)
Definition trim (s : jsstring) : jsstring := trimEnd (trimStart s).

Definition eqb (a b : jsstring) : bool := bool_decide (a = b).

(** [s.startsWith(p)], used to read a literal of a regular expression. *)
Fixpoint startsWith (p s : jsstring) : bool :=
  match p, s with
  | [], _ => true
  | _ :: _, [] => false
  | a :: p', b :: s' => (a =? b) && startsWith p' s'
  end.

(** [s.indexOf(p)]: the least index at which [p] occurs, if any. *)
Fixpoint indexOf (p s : jsstring) : option nat :=
  if startsWith p s then Some 0%nat
  else match s with
       | [] => None
       | _ :: s' => S <$> indexOf p s'
       end.

(** [s.split(sep)] for a one-unit separator: never the empty array. *)
Fixpoint split (sep : char) (s : jsstring) : list jsstring :=
  match s with
  | [] => [[]]
  | c :: s' =>
      if c =? sep then [] :: split sep s'
      else match split sep s' with
           | l :: ls => (c :: l) :: ls
           | [] => [[c]]
           end
  end.

(** [a.join(sep)] *)
Fixpoint join (sep : char) (a : list jsstring) : jsstring :=
  match a with
  | [] => []
  | [l] => l
  | l :: ls => l ++ sep :: join sep ls
  end.

End JS.

Import JS.

(** ** Settings (lines 3-17) *)

(** The field [removeEmptySections] is [removeEmptySectionsFlag] here: the
    method of that name follows below. *)
Record CleanNotesSettings := {
  dailyNotesFolder : jsstring;
  daysAfter : Z;
  removeButtons : bool;
  removeTaskQueries : bool;
  removeEmptySectionsFlag : bool;
}.

Definition DEFAULT_SETTINGS : CleanNotesSettings := {|
  dailyNotesFolder := [];
  daysAfter := 7;
  removeButtons := true;
  removeTaskQueries := true;
  removeEmptySectionsFlag := true;
|}.

(** ** Fenced blocks: [out.replace(/```tag[\s\S]*?```/g, '')] (lines 81-86) *)

Definition fence : jsstring := [BACKTICK; BACKTICK; BACKTICK].

Definition opening (tag : jsstring) : jsstring := fence ++ tag.

(** One attempt of the expression at the start of [s]: the literal
    [```tag], then as few units as possible ([[\s\S]*?] takes any unit,
    newlines too), then the literal [```].  The length of the match. *)
Definition fencedMatch (tag s : jsstring) : option nat :=
  if startsWith (opening tag) s then
    match indexOf fence (drop (length (opening tag)) s) with
    | Some k => Some (length (opening tag) + k + length fence)%nat
    | None => None
    end
  else None.

(** The global replace by the empty string.  The scan tries every index
    from the left; a match is left out of the result and the scan goes on
    behind it ([skip] counts the units of the current match still to pass);
    a unit at which the expression fails is copied. *)
Fixpoint replaceFenced (tag : jsstring) (skip : nat) (s : jsstring) : jsstring :=
  match s with
  | [] => []
  | c :: rest =>
      match skip with
      | S k => replaceFenced tag k rest
      | O =>
          match fencedMatch tag s with
          | Some n => replaceFenced tag (pred n) rest
          | None => c :: replaceFenced tag 0 rest
          end
      end
  end.

Definition strip (tag text : jsstring) : jsstring := replaceFenced tag 0 text.

Definition BUTTON : jsstring := lit "button".
Definition TASKS : jsstring := lit "tasks".

(** ** Empty sections (lines 93-115) *)

(** [/^#+\s/.test(line)] *)
Definition isHeading (line : jsstring) : bool :=
  match line with
  | c :: _ =>
      (c =? HASH) &&
      match dropWhile (fun x => x =? HASH) line with
      | w :: _ => isWhiteSpace w
      | [] => false
      end
  | [] => false
  end.

(** [lines[j].trim() !== ''] *)
Definition hasText (line : jsstring) : bool := negb (eqb (trim line) []).

(** The inner [while] started at [j = i + 1] on the lines behind the
    heading: how many lines it passes, and [hasContent]. *)
Fixpoint scanSection (ls : list jsstring) : nat * bool :=
  match ls with
  | [] => (0%nat, false)
  | l :: rest =>
      if isHeading l then (0%nat, false)
      else let '(n, hasContent) := scanSection rest in
           (S n, hasText l || hasContent)
  end.

(** The [for] loop over the lines from index [i] on.  [i = j - 1; continue]
    makes the loop pass the lines the scan went over: [skip] counts them. *)
Fixpoint pruneLoop (skip : nat) (ls : list jsstring) : list jsstring :=
  match ls with
  | [] => []
  | line :: rest =>
      match skip with
      | S k => pruneLoop k rest
      | O =>
          if isHeading line then
            let '(n, hasContent) := scanSection rest in
            if hasContent then line :: pruneLoop 0 rest
            else pruneLoop n rest
          else line :: pruneLoop 0 rest
      end
  end.

Definition removeEmptySections (text : jsstring) : jsstring :=
  join LF (pruneLoop 0 (split LF text)).

(** ** The pipeline (lines 79-91) *)

Definition applyTransforms (settings : CleanNotesSettings) (text : jsstring) : jsstring :=
  let out := text in
  let out := if removeButtons settings then strip BUTTON out else out in
  let out := if removeTaskQueries settings then strip TASKS out else out in
  let out := if removeEmptySectionsFlag settings then removeEmptySections out else out in
  trim out ++ [LF].

(** A text given by its lines. *)
Definition text_of (ls : list String.string) : jsstring := join LF (List.map lit ls).

(** ** Dates (lines 69-77) *)

Module Date.

Definition msPerDay : Z := 86400000.

Definition inLeapYear (y : Z) : bool :=
  ((y mod 4 =? 0) && negb (y mod 100 =? 0) || (y mod 400 =? 0))%Z.

Definition daysInMonth (y m : Z) : Z :=
  match m with
  | 1 | 3 | 5 | 7 | 8 | 10 | 12 => 31
  | 4 | 6 | 9 | 11 => 30
  | 2 => if inLeapYear y then 29 else 28
  | _ => 0
  end%Z.

(** [DayFromYear] of ECMA-262: the day number of 1 January of year [y],
    counted from 1 January 1970. *)
Definition dayFromYear (y : Z) : Z :=
  (365 * (y - 1970) + (y - 1969) / 4 - (y - 1901) / 100 + (y - 1601) / 400)%Z.

Fixpoint daysBefore (y : Z) (months : nat) : Z :=
  match months with
  | O => 0
  | S k => daysBefore y k + daysInMonth y (Z.of_nat (S k))
  end%Z.

(** [MakeDay] for a date of the calendar. *)
Definition makeDay (y m d : Z) : Z :=
  (dayFromYear y + daysBefore y (Z.to_nat (m - 1)) + (d - 1))%Z.

(** The fields name a day of the (proleptic Gregorian) calendar. *)
Definition validDate (y m d : Z) : bool :=
  ((1 <=? m) && (m <=? 12) && (1 <=? d) && (d <=? daysInMonth y m))%Z.

(** The time value of midnight UTC at the start of a day. *)
Definition UTC (y m d : Z) : Z := (makeDay y m d * msPerDay)%Z.

Definition digit (c : char) : Z := Z.of_N (c - 48).

Definition number (ds : jsstring) : Z :=
  fold_left (fun acc c => (10 * acc + digit c)%Z) ds 0%Z.

(** The fields of a string of the shape [dddd-dd-dd]. *)
Definition fields (s : jsstring) : Z * Z * Z :=
  (number (take 4 s), number (take 2 (drop 5 s)), number (take 2 (drop 8 s))).

(** What the engine does with a day of 29 to 31 that the month does not
    have.  ECMA-262 bounds the day by 01 and 31 and has [Date.parse] return
    [NaN] on an out-of-bounds value; on 30 February the engines part: V8
    (Electron, so Obsidian on the desktop) keeps the date and lets [MakeDay]
    carry the day over into March, SpiderMonkey and JavaScriptCore return
    [NaN]. *)
Inductive Engine := CarryOver | Reject.

(** The dates the engine takes. *)
Definition accepts (engine : Engine) (y m d : Z) : bool :=
  match engine with
  | CarryOver => ((1 <=? m) && (m <=? 12) && (1 <=? d) && (d <=? 31))%Z
  | Reject => validDate y m d
  end.

(** [new Date(s).getTime()] on the date-only form [YYYY-MM-DD] of the
    Date Time String Format, the only form the plugin passes: the time
    value of midnight UTC, or [None] for [NaN]. *)
Definition parse (engine : Engine) (s : jsstring) : option Z :=
  let '(y, m, d) := fields s in
  if accepts engine y m d then Some (UTC y m d) else None.

End Date.

(** [\d{4}-\d{2}-\d{2}] tried at the start of [s]. *)
Definition isDateShape (s : jsstring) : bool :=
  match s with
  | y1 :: y2 :: y3 :: y4 :: h1 :: m1 :: m2 :: h2 :: d1 :: d2 :: _ =>
      isDigit y1 && isDigit y2 && isDigit y3 && isDigit y4 && (h1 =? HYPHEN)
      && isDigit m1 && isDigit m2 && (h2 =? HYPHEN) && isDigit d1 && isDigit d2
  | _ => false
  end.

(** [basename.match(/(\d{4}-\d{2}-\d{2})/)]: group 1 of the leftmost match. *)
Fixpoint matchDate (s : jsstring) : option jsstring :=
  if isDateShape s then Some (take 10 s)
  else match s with
       | [] => None
       | _ :: s' => matchDate s'
       end.

(** [isOldEnough], with the instant [new Date()] returns as the argument
    [now] (a time value, in milliseconds).  The quotient is a rational
    number: the difference of the two time values is an integer below 2^53,
    and rounding its quotient by 86400000 to a double cannot carry it
    across an integer threshold, so the comparison agrees with the one on
    doubles. *)
Definition isOldEnough (engine : Date.Engine) (settings : CleanNotesSettings)
    (now : Z) (basename : jsstring) : bool :=
  match matchDate basename with
  | None => false
  | Some m =>
      match Date.parse engine m with
      | None => false
      | Some fileDate =>
          let diff := ((now - fileDate) # 86400000)%Q in
          Qle_bool (inject_Z (daysAfter settings)) diff
      end
  end.

(** ** The vault and the run (lines 45-67) *)

Record TFile := {
  path : jsstring;
  basename : jsstring;
  extension : jsstring;
}.

#[warnings="-register-all"]
Inductive TAbstractFile :=
| File (f : TFile)
| Folder (folderPath : jsstring) (children : list TAbstractFile).

(** The requests the plugin makes, in the order it makes them. *)
Inductive Event :=
| Read (p : jsstring)
| Modify (p : jsstring) (data : jsstring)
| Notice (message : jsstring).

Inductive Failure :=
| ReadRejected (p : jsstring)
| ModifyRejected (p : jsstring).

(** What the host application provides and the plugin does not change: the
    file tree, the folder option of the daily-notes core plugin, the
    JavaScript engine, the clock (the time value of the n-th [new Date()]),
    and which reads and writes the vault rejects. *)
Record App := {
  getAbstractFileByPath : jsstring -> option TAbstractFile;
  dailyNotesOption : option jsstring;
  engine : Date.Engine;
  clock : nat -> Z;
  rejectsRead : jsstring -> bool;
  rejectsModify : jsstring -> bool;
}.

(** What a run changes: the stored text of the files, the requests made so
    far (latest first), and the number of clock readings. *)
Record World := {
  files : gmap (list N) (list N);
  log : list Event;
  ticks : nat;
}.

Inductive Result (A : Type) :=
| Returned (a : A)
| Thrown (e : Failure).
Arguments Returned {A} a.
Arguments Thrown {A} e.

(** An [async] function: it changes the world and returns, or it stops at
    the first rejected [await]. *)
Definition Async (A : Type) : Type := World -> Result A * World.

Definition ret {A} (a : A) : Async A := fun w => (Returned a, w).

Definition bind {A B} (m : Async A) (k : A -> Async B) : Async B :=
  fun w =>
    match m w with
    | (Returned a, w') => k a w'
    | (Thrown e, w') => (Thrown e, w')
    end.

Notation "'await' x <~ m 'in' k" := (bind m (fun x => k))
  (at level 10, x name, m at level 100, k at level 200).

Definition record (e : Event) : Async unit :=
  fun w => (Returned tt, {| files := files w; log := e :: log w; ticks := ticks w |}).

(** [new Notice(message)] *)
Definition notice (message : jsstring) : Async unit := record (Notice message).

(** [new Date().getTime()] *)
Definition getTime (app : App) : Async Z :=
  fun w => (Returned (clock app (ticks w)),
            {| files := files w; log := log w; ticks := S (ticks w) |}).

(** [await app.vault.read(file)] *)
Definition vaultRead (app : App) (f : TFile) : Async jsstring :=
  await _ <~ record (Read (path f)) in
  fun w =>
    if rejectsRead app (path f) then (Thrown (ReadRejected (path f)), w)
    else match files w !! path f with
         | Some data => (Returned data, w)
         | None => (Thrown (ReadRejected (path f)), w)
         end.

(** [await app.vault.modify(file, data)] *)
Definition vaultModify (app : App) (f : TFile) (data : jsstring) : Async unit :=
  await _ <~ record (Modify (path f) data) in
  fun w =>
    if rejectsModify app (path f) then (Thrown (ModifyRejected (path f)), w)
    else (Returned tt,
          {| files := <[path f := data]> (files w); log := log w; ticks := ticks w |}).

(** [for (const x of xs) body(x)] *)
Fixpoint forOf {A} (xs : list A) (body : A -> Async unit) : Async unit :=
  match xs with
  | [] => ret tt
  | x :: xs' => await _ <~ body x in forOf xs' body
  end.

Record CleanNotesPlugin := {
  app : App;
  settings : CleanNotesSettings;
}.

Definition MD : jsstring := lit "md".

(** [getDefaultDailyNotesFolder]: [opts?.folder || ''] *)
Definition getDefaultDailyNotesFolder (this : CleanNotesPlugin) : jsstring :=
  match dailyNotesOption (app this) with
  | Some folder => folder
  | None => []
  end.

(** The body of the loop of [cleanNotes] for one child. *)
Definition cleanChild (this : CleanNotesPlugin) (child : TAbstractFile) : Async unit :=
  match child with
  | File f =>
      if eqb (extension f) MD then
        await now <~ getTime (app this) in
        if negb (isOldEnough (engine (app this)) (settings this) now (basename f))
        then ret tt
        else
          await original <~ vaultRead (app this) f in
          let cleaned := applyTransforms (settings this) original in
          if negb (eqb original cleaned) then vaultModify (app this) f cleaned
          else ret tt
      else ret tt
  | Folder _ _ => ret tt
  end.

(** [this.settings.dailyNotesFolder || this.getDefaultDailyNotesFolder()] *)
Definition folderPathOf (this : CleanNotesPlugin) : jsstring :=
  match dailyNotesFolder (settings this) with
  | [] => getDefaultDailyNotesFolder this
  | configured => configured
  end.

Definition cleanNotes (this : CleanNotesPlugin) : Async unit :=
  let folderPath := folderPathOf this in
  match folderPath with
  | [] => notice (lit "Daily notes folder not set")
  | _ =>
      match getAbstractFileByPath (app this) folderPath with
      | Some (Folder _ children) =>
          await _ <~ forOf children (cleanChild this) in
          notice (lit "Finished cleaning daily notes")
      | _ => notice (lit "Folder not found: " ++ folderPath)
      end
  end.

(** ** Fenced regions of a text *)

(** The fenced region tagged [tag] that begins at index [i] of [text]: an
    opening fence at [i], closed by the next three backticks behind it.
    Its length, if there is one. *)
Definition regionAt (tag text : jsstring) (i : nat) : option nat :=
  fencedMatch tag (drop i text).

(** No fenced region begins at an index below [n]. *)
Definition noRegionBefore (tag text : jsstring) (n : nat) : bool :=
  forallb (fun i => bool_decide (regionAt tag text i = None)) (seq 0 n).

(** Every fenced region that begins below [n] also ends at or below [n]. *)
Definition closedBefore (tag text : jsstring) (n : nat) : bool :=
  forallb (fun i => match regionAt tag text i with
                    | Some m => (i + m <=? n)%nat
                    | None => true
                    end) (seq 0 n).

(** The closing fence behind [body] is the next occurrence of three
    backticks. *)
Definition closesAtNext (body : jsstring) : Prop :=
  indexOf fence (body ++ fence) = Some (length body).

(** ** The pipeline, as the specification words it *)




(** Neither the first nor the last unit of [s] is white space. *)
Definition trimmed (s : jsstring) : Prop :=
  (forall c r, s = c :: r -> isWhiteSpace c = false) /\
  (forall c r, s = r ++ [c] -> isWhiteSpace c = false).

Definition contains (c : char) (s : jsstring) : bool := existsb (N.eqb c) s.

(** No enabled transform has anything to match in [text]: no backtick where
    a block transform is enabled, no [#] where pruning is. *)
Definition nothingToMatch (settings : CleanNotesSettings) (text : jsstring) : bool :=
  (negb (removeButtons settings || removeTaskQueries settings) || negb (contains BACKTICK text))
  && (negb (removeEmptySectionsFlag settings) || negb (contains HASH text)).

(** ** Sections of a text, as the specification words them *)

(** The lines before the first heading, and the sections: each a heading
    line with the lines up to the next heading line or the end. *)
Fixpoint sectionsOf (ls : list jsstring) : list jsstring * list (jsstring * list jsstring) :=
  match ls with
  | [] => ([], [])
  | l :: rest =>
      let '(preamble, sections) := sectionsOf rest in
      if isHeading l then ([], (l, preamble) :: sections)
      else (l :: preamble, sections)
  end.

(** A section with a line that is not blank is kept whole; one without is
    dropped whole. *)
Definition keep (section : jsstring * list jsstring) : list jsstring :=
  let '(heading, body) := section in
  if existsb hasText body then heading :: body else [].

Definition keptLines (ls : list jsstring) : list jsstring :=
  let '(preamble, sections) := sectionsOf ls in
  preamble ++ flat_map keep sections.

(** The lines of a list of sections. *)
Definition linesOf (sections : list (jsstring * list jsstring)) : list jsstring :=
  flat_map (fun s => fst s :: snd s) sections.

Definition EmptySectionPruner (text : jsstring) : jsstring :=
  join LF (keptLines (split LF text)).

(** ** The documents of a run *)

(** The children of the folder the run resolves; none when it resolves no
    folder. *)
Definition childrenOf (this : CleanNotesPlugin) : list TAbstractFile :=
  match folderPathOf this with
  | [] => []
  | folderPath =>
      match getAbstractFileByPath (app this) folderPath with
      | Some (Folder _ children) => children
      | _ => []
      end
  end.

(** The direct children of the resolved folder that are files of type
    [md]. *)
Definition documents (this : CleanNotesPlugin) : list TFile :=
  flat_map (fun child =>
              match child with
              | File f => if eqb (extension f) MD then [f] else []
              | Folder _ _ => []
              end) (childrenOf this).

(** The requests a run made: what it added to the log. *)
Definition requestsOf (before after : World) (requests : list Event) : Prop :=
  log after = requests ++ log before.

(** The path [p] is not written, and keeps its text. *)
Definition unwritten (p : jsstring) (w w' : World) : Prop :=
  files w' !! p = files w !! p /\
  exists requests, requestsOf w w' requests /\ forall d, ~ In (Modify p d) requests.

(** The path [p] is neither read nor written, and keeps its text. *)
Definition untouched (p : jsstring) (w w' : World) : Prop :=
  files w' !! p = files w !! p /\
  exists requests, requestsOf w w' requests /\
    ~ In (Read p) requests /\ forall d, ~ In (Modify p d) requests.

(** ** A sample vault *)

Module Sample.

Definition dirty : jsstring :=
  text_of ["```button"; "Do X"; "```"; ""; "# Notes"; ""; "Actual text"; ""]%string.

Definition clean : jsstring := text_of ["# Notes"; ""; "Actual text"; ""]%string.

Definition note (folder name ext : String.string) : TFile := {|
  path := lit folder ++ lit "/" ++ lit name ++ lit "." ++ lit ext;
  basename := lit name;
  extension := lit ext;
|}.

Definition jan1 : TFile := note "daily" "2023-01-01" "md".
Definition jan2 : TFile := note "daily" "2023-01-02" "md".
Definition jan3 : TFile := note "daily" "2023-01-03" "txt".
Definition dec31 : TFile := note "daily/archive" "2022-12-31" "md".
Definition jan4 : TFile := note "daily" "2023-01-04" "md".

Definition daily : TAbstractFile :=
  Folder (lit "daily")
    [File jan1; File jan2; File jan3; Folder (lit "daily/archive") [File dec31]; File jan4].

Definition world : World := {|
  files := <[path jan1 := dirty]> (<[path jan2 := clean]> (<[path jan3 := dirty]>
             (<[path dec31 := dirty]> (<[path jan4 := dirty]> ∅))));
  log := [];
  ticks := 0;
|}.

(** A host on 20 January 2023; [broken] is a path whose reads it rejects. *)
Definition host (broken : jsstring) : App := {|
  getAbstractFileByPath := fun p => if eqb p (lit "daily") then Some daily else None;
  dailyNotesOption := Some (lit "daily");
  engine := Date.CarryOver;
  clock := fun _ => Date.UTC 2023 1 20;
  rejectsRead := fun p => eqb p broken;
  rejectsModify := fun _ => false;
|}.

Definition plugin : CleanNotesPlugin := {| app := host []; settings := DEFAULT_SETTINGS |}.

Definition faulty : CleanNotesPlugin :=
  {| app := host (path jan1); settings := DEFAULT_SETTINGS |}.

End Sample.

Definition hasContent (section : jsstring * list jsstring) : bool :=
  existsb hasText (snd section).

Definition NO_FLAGS_3_DAYS : CleanNotesSettings := {|
  dailyNotesFolder := [];
  daysAfter := 3;
  removeButtons := false;
  removeTaskQueries := false;
  removeEmptySectionsFlag := false;
|}.

(** ** Requests of a run, once more *)

(** Requests (latest first) in which every write comes straight after a
    read of the same file. *)
Inductive disciplined : list Event -> Prop :=
| disciplined_nil : disciplined []
| disciplined_notice message l : disciplined l -> disciplined (Notice message :: l)
| disciplined_read p l : disciplined l -> disciplined (Read p :: l)
| disciplined_modify p data l :
    disciplined l -> disciplined (Modify p data :: Read p :: l).

(** The text a run that meets no failure leaves at the path of a document,
    when every clock reading is [now]. *)
Definition cleaned (this : CleanNotesPlugin) (now : Z) (w : World) (f : TFile) : option jsstring :=
  if isOldEnough (engine (app this)) (settings this) now (basename f)
  then applyTransforms (settings this) <$> files w !! path f
  else files w !! path f.

Definition NOT_SET : jsstring := lit "Daily notes folder not set".
Definition NOT_FOUND : jsstring := lit "Folder not found: ".
Definition FINISHED : jsstring := lit "Finished cleaning daily notes".

(** The files of type [md] among some children. *)
Definition documentsOf (children : list TAbstractFile) : list TFile :=
  flat_map (fun child =>
              match child with
              | File f => if eqb (extension f) MD then [f] else []
              | Folder _ _ => []
              end) children.

(** ** Settings: loading and saving (lines 22-27, 124-130) *)

(** What [loadData] resolves to: [None] for [null] (nothing was saved), or
    the saved object, in which a key may be missing.  The values are taken
    to have the types [saveSettings] writes. *)
Record StoredSettings := {
  storedDailyNotesFolder : option jsstring;
  storedDaysAfter : option Z;
  storedRemoveButtons : option bool;
  storedRemoveTaskQueries : option bool;
  storedRemoveEmptySections : option bool;
}.

(** One key of [Object.assign({}, defaults, data)]. *)
Definition assigned {A} (stored : option A) (default : A) : A :=
  match stored with
  | Some value => value
  | None => default
  end.

(** [loadSettings]: [Object.assign({}, DEFAULT_SETTINGS, await this.loadData())] *)
Definition loadSettings (data : option StoredSettings) : CleanNotesSettings :=
  match data with
  | None => DEFAULT_SETTINGS
  | Some d => {|
      dailyNotesFolder := assigned (storedDailyNotesFolder d) (dailyNotesFolder DEFAULT_SETTINGS);
      daysAfter := assigned (storedDaysAfter d) (daysAfter DEFAULT_SETTINGS);
      removeButtons := assigned (storedRemoveButtons d) (removeButtons DEFAULT_SETTINGS);
      removeTaskQueries :=
        assigned (storedRemoveTaskQueries d) (removeTaskQueries DEFAULT_SETTINGS);
      removeEmptySectionsFlag :=
        assigned (storedRemoveEmptySections d) (removeEmptySectionsFlag DEFAULT_SETTINGS);
    |}
  end.


(** [this.settings.dailyNotesFolder = folder] *)
Definition setDailyNotesFolder (settings : CleanNotesSettings) (folder : jsstring) :
    CleanNotesSettings := {|
  dailyNotesFolder := folder;
  daysAfter := daysAfter settings;
  removeButtons := removeButtons settings;
  removeTaskQueries := removeTaskQueries settings;
  removeEmptySectionsFlag := removeEmptySectionsFlag settings;
|}.

(** [this.settings.daysAfter = num] *)
Definition setDaysAfter (settings : CleanNotesSettings) (num : Z) : CleanNotesSettings := {|
  dailyNotesFolder := dailyNotesFolder settings;
  daysAfter := num;
  removeButtons := removeButtons settings;
  removeTaskQueries := removeTaskQueries settings;
  removeEmptySectionsFlag := removeEmptySectionsFlag settings;
|}.

(** The settings part of [onload] (lines 23-27): load, then fill an empty
    folder from the daily-notes core plugin, if that names one. *)
Definition onload (host : App) (data : option StoredSettings) : CleanNotesPlugin :=
  let this := {| app := host; settings := loadSettings data |} in
  match dailyNotesFolder (settings this) with
  | [] =>
      match getDefaultDailyNotesFolder this with
      | [] => this
      | folder => {| app := host; settings := setDailyNotesFolder (settings this) folder |}
      end
  | _ => this
  end.

(** ** The settings tab (lines 151-154, 164-170) *)

Fixpoint takeWhile {A} (p : A -> bool) (l : list A) : list A :=
  match l with
  | [] => []
  | x :: l' => if p x then x :: takeWhile p l' else []
  end.

Definition MINUS : char := 45.
Definition PLUS : char := 43.

(** [parseInt(value, 10)], [None] for [NaN]: leading white space goes, one
    sign is read, then the digits up to the first unit that is none; what
    follows is ignored.  The value is exact here; a double holds it exactly
    up to 2^53. *)
Definition parseInt (value : jsstring) : option Z :=
  let s := trimStart value in
  let negative := match s with c :: _ => c =? MINUS | [] => false end in
  let s := match s with
           | c :: r => if (c =? MINUS) || (c =? PLUS) then r else s
           | [] => []
           end in
  match takeWhile isDigit s with
  | [] => None
  | digits => Some (if negative then - Date.number digits else Date.number digits)%Z
  end.

(** The handler of the folder field: [dailyNotesFolder = value.trim()]. *)
Definition onFolderChange (settings : CleanNotesSettings) (value : jsstring) :
    CleanNotesSettings :=
  setDailyNotesFolder settings (trim value).

(** The handler of the days field: [parseInt], and the setting only when
    the result is a number. *)
Definition onDaysChange (settings : CleanNotesSettings) (value : jsstring) :
    CleanNotesSettings :=
  match parseInt value with
  | Some num => setDaysAfter settings num
  | None => settings
  end.

(** The digits of a natural number, most significant first, before [acc]. *)
Fixpoint digitsBefore (fuel : nat) (n : Z) (acc : jsstring) : jsstring :=
  match fuel with
  | O => acc
  | S fuel' =>
      let acc' := (48 + Z.to_N (n mod 10))%N :: acc in
      if (n <? 10)%Z then acc' else digitsBefore fuel' (n / 10) acc'
  end.

(** [String(n)] for an integer below 10^21 in size, as the days field
    shows it: the decimal digits, with a minus sign before them when [n] is
    negative. *)
Definition numberToString (n : Z) : jsstring :=
  if (n <? 0)%Z then MINUS :: digitsBefore (S (Z.to_nat (Z.log2 (- n)))) (- n) []
  else digitsBefore (S (Z.to_nat (Z.log2 n))) n [].

(** * Properties *)

Local Open Scope nat_scope.

(** ** Strings *)

Lemma startsWith_app p r : startsWith p (p ++ r) = true.
Proof. induction p as [|a p IH]; simpl; [done|]. by rewrite N.eqb_refl. Qed.

Lemma startsWith_true p s : startsWith p s = true -> exists r, s = p ++ r.
Proof.
  revert s. induction p as [|a p IH]; intros s H; simpl in *.
  - by exists s.
  - destruct s as [|b s]; [done|].
    apply andb_true_iff in H as [Hab Hp]. apply N.eqb_eq in Hab as ->.
    destruct (IH _ Hp) as [r ->]. by exists r.
Qed.

Lemma startsWith_length p s : startsWith p s = true -> length p <= length s.
Proof. intros [r ->]%startsWith_true. rewrite length_app. lia. Qed.

(** An occurrence that fits into [s] does not depend on what follows [s]. *)
Lemma startsWith_app_l p s t :
  length p <= length s -> startsWith p (s ++ t) = startsWith p s.
Proof.
  revert s. induction p as [|a p IH]; intros s Hlen; [done|].
  destruct s as [|b s]; simpl in *; [lia|].
  rewrite IH; [done|lia].
Qed.

Lemma startsWith_app_true p s t :
  startsWith p s = true -> startsWith p (s ++ t) = true.
Proof. intros H. rewrite startsWith_app_l; [done|]. by apply startsWith_length. Qed.

Lemma indexOf_Some p s k :
  indexOf p s = Some k ->
  startsWith p (drop k s) = true /\ forall j, j < k -> startsWith p (drop j s) = false.
Proof.
  revert k. induction s as [|c s IH]; intros k; simpl.
  - destruct (startsWith p []) eqn:E; [|done].
    intros [= <-]. split; [done|lia].
  - destruct (startsWith p (c :: s)) eqn:E.
    + intros [= <-]. split; [done|lia].
    + destruct (indexOf p s) as [k'|] eqn:Ei; [|done].
      intros [= <-]. destruct (IH _ eq_refl) as [H1 H2]. split; [done|].
      intros [|j] Hj; [done|]. apply H2. lia.
Qed.

Lemma indexOf_None p s j : indexOf p s = None -> startsWith p (drop j s) = false.
Proof.
  revert j. induction s as [|c s IH]; intros j; simpl.
  - destruct (startsWith p []) eqn:E; [done|]. intros _. by rewrite drop_nil.
  - destruct (startsWith p (c :: s)) eqn:E; [done|].
    destruct (indexOf p s) eqn:Ei; [done|]. intros _.
    destruct j as [|j]; [done|]. by apply IH.
Qed.

Lemma indexOf_first p s k :
  startsWith p (drop k s) = true ->
  (forall j, j < k -> startsWith p (drop j s) = false) ->
  indexOf p s = Some k.
Proof.
  revert k. induction s as [|c s IH]; intros k Hk Hlt.
  - rewrite drop_nil in Hk. simpl. rewrite Hk.
    destruct k as [|k]; [done|]. specialize (Hlt 0 ltac:(lia)). simpl in Hlt. congruence.
  - destruct k as [|k]; simpl in *.
    + by rewrite Hk.
    + pose proof (Hlt 0 ltac:(lia)) as H0. simpl in H0. rewrite H0.
      rewrite (IH k); [done|done|].
      intros j Hj. apply (Hlt (S j)). lia.
Qed.

Lemma indexOf_None_intro p s :
  (forall j, startsWith p (drop j s) = false) -> indexOf p s = None.
Proof.
  intros H. destruct (indexOf p s) as [k|] eqn:E; [|done].
  apply indexOf_Some in E as [E _]. by rewrite H in E.
Qed.

(** The first occurrence is not moved by text added at the end. *)
Lemma indexOf_app_Some p s t k : indexOf p s = Some k -> indexOf p (s ++ t) = Some k.
Proof.
  intros [Hk Hlt]%indexOf_Some.
  assert (Hlen : k + length p <= length s).
  { pose proof (startsWith_length _ _ Hk) as Hl. rewrite length_drop in Hl.
    destruct k as [|k]; [lia|].
    destruct p as [|a p]; [|simpl in *; lia].
    by specialize (Hlt 0 ltac:(lia)). }
  apply indexOf_first.
  - rewrite drop_app_le by lia. by apply startsWith_app_true.
  - intros j Hj. rewrite drop_app_le by lia.
    rewrite startsWith_app_l; [by apply Hlt|]. rewrite length_drop. lia.
Qed.

(** *** One attempt of the expression *)

Lemma fencedMatch_Some tag s m :
  fencedMatch tag s = Some m <->
  startsWith (opening tag) s = true /\
  exists k, indexOf fence (drop (length (opening tag)) s) = Some k /\
            m = length (opening tag) + k + 3.
Proof.
  unfold fencedMatch. destruct (startsWith (opening tag) s).
  - destruct (indexOf fence _) as [k|]; split.
    + intros [= <-]. split; [done|]. by exists k.
    + intros (_ & k' & [= <-] & ->). done.
    + done.
    + intros (_ & k' & [=] & _).
  - split; [done|]. by intros [[=] _].
Qed.

Lemma fencedMatch_pos tag s m : fencedMatch tag s = Some m -> 0 < m.
Proof. intros (_ & k & _ & ->)%fencedMatch_Some. lia. Qed.

Lemma fencedMatch_length tag s m : fencedMatch tag s = Some m -> m <= length s.
Proof.
  intros (Ho & k & [Hk _]%indexOf_Some & ->)%fencedMatch_Some.
  apply startsWith_length in Hk. rewrite !length_drop in Hk.
  change (length fence) with 3 in Hk. lia.
Qed.

(** A match does not depend on the text behind it. *)
Lemma fencedMatch_app tag s t m :
  fencedMatch tag s = Some m -> fencedMatch tag (s ++ t) = Some m.
Proof.
  intros (Ho & k & Hk & ->)%fencedMatch_Some. apply fencedMatch_Some.
  split; [by apply startsWith_app_true|]. exists k. split; [|done].
  rewrite drop_app_le by by apply startsWith_length.
  by apply indexOf_app_Some.
Qed.

(** A match that ends inside [s] is a match of [s] alone. *)
Lemma fencedMatch_app_inv tag s t m :
  fencedMatch tag (s ++ t) = Some m -> m <= length s -> fencedMatch tag s = Some m.
Proof.
  intros (Ho & k & [Hk Hlt]%indexOf_Some & ->)%fencedMatch_Some Hm.
  apply fencedMatch_Some.
  assert (Hlen : length (opening tag) <= length s) by lia.
  rewrite startsWith_app_l in Ho by done. split; [done|]. exists k. split; [|done].
  rewrite drop_app_le in Hk, Hlt by done.
  apply indexOf_first.
  - rewrite drop_app_le in Hk by (rewrite length_drop; lia).
    rewrite startsWith_app_l in Hk; [done|].
    rewrite !length_drop. change (length fence) with 3. lia.
  - intros j Hj. specialize (Hlt j Hj).
    rewrite drop_app_le in Hlt by (rewrite length_drop; lia).
    rewrite startsWith_app_l in Hlt; [done|].
    rewrite !length_drop. change (length fence) with 3. lia.
Qed.

(** *** The scan *)

Lemma replaceFenced_skip tag k s :
  replaceFenced tag k s = replaceFenced tag 0 (drop k s).
Proof.
  revert s. induction k as [|k IH]; intros s; [done|].
  destruct s as [|c s]; [done|]. simpl. apply IH.
Qed.

Lemma strip_nil tag : strip tag [] = [].
Proof. done. Qed.

Lemma strip_match tag s m :
  fencedMatch tag s = Some m -> strip tag s = strip tag (drop m s).
Proof.
  intros Hm. pose proof (fencedMatch_pos _ _ _ Hm) as Hpos.
  pose proof (fencedMatch_length _ _ _ Hm) as Hlen.
  destruct s as [|c s]; [simpl in Hlen; lia|].
  unfold strip. cbn [replaceFenced]. rewrite Hm.
  rewrite replaceFenced_skip. destruct m as [|m]; [lia|]. done.
Qed.

Lemma strip_copy tag c s :
  fencedMatch tag (c :: s) = None -> strip tag (c :: s) = c :: strip tag s.
Proof. intros Hm. unfold strip. cbn [replaceFenced]. by rewrite Hm. Qed.

(** Where no match begins inside [p], the scan copies [p]. *)
Lemma strip_copy_prefix tag p s :
  (forall i, i < length p -> fencedMatch tag (drop i (p ++ s)) = None) ->
  strip tag (p ++ s) = p ++ strip tag s.
Proof.
  induction p as [|c p IH]; intros H; [done|].
  simpl. rewrite strip_copy.
  - f_equal. apply IH. intros i Hi. apply (H (S i)). simpl. lia.
  - apply (H 0). simpl. lia.
Qed.

Lemma strip_id tag s :
  (forall i, i < length s -> fencedMatch tag (drop i s) = None) -> strip tag s = s.
Proof.
  intros H. rewrite <- (app_nil_r s) at 1. rewrite strip_copy_prefix.
  - by rewrite strip_nil, app_nil_r.
  - by rewrite app_nil_r.
Qed.

(** Where every match that begins inside [p] ends inside [p], the scan of
    [p ++ s] is the scan of [p] followed by the scan of [s]. *)
Lemma strip_app tag p s :
  (forall i m, i < length p -> fencedMatch tag (drop i (p ++ s)) = Some m ->
               i + m <= length p) ->
  strip tag (p ++ s) = strip tag p ++ strip tag s.
Proof.
  remember (length p) as n eqn:Hn. revert p Hn.
  induction (lt_wf n) as [n _ IH]. intros p -> H.
  destruct p as [|c p]; [done|].
  destruct (fencedMatch tag ((c :: p) ++ s)) as [m|] eqn:Hm.
  - pose proof (H 0 m ltac:(simpl; lia) Hm) as Hle. simpl in Hle.
    pose proof (fencedMatch_pos _ _ _ Hm) as Hpos.
    rewrite (strip_match _ _ _ Hm).
    rewrite (strip_match tag (c :: p) m) by by apply (fencedMatch_app_inv _ _ s).
    rewrite drop_app_le by done.
    apply (IH (length (drop m (c :: p)))); [|done|].
    + rewrite length_drop. simpl. lia.
    + intros i m' Hi Hm'. rewrite length_drop in Hi |- *.
      rewrite <- drop_app_le, drop_drop in Hm' by done.
      specialize (H (m + i) m' ltac:(lia) Hm'). lia.
  - simpl in Hm |- *. rewrite (strip_copy _ _ _ Hm).
    rewrite strip_copy.
    + simpl. f_equal. apply (IH (length p)); [simpl; lia|done|].
      intros i m Hi Hm'. specialize (H (S i) m ltac:(simpl; lia) Hm'). simpl in H. lia.
    + destruct (fencedMatch tag (c :: p)) as [m|] eqn:Hp; [|done].
      apply (fencedMatch_app _ _ s) in Hp. simpl in Hp. congruence.
Qed.

(** ** BlockStripper *)

Lemma noRegionBefore_spec tag text n :
  noRegionBefore tag text n = true ->
  forall i, i < n -> fencedMatch tag (drop i text) = None.
Proof.
  unfold noRegionBefore. rewrite forallb_forall. intros H i Hi.
  specialize (H i). rewrite in_seq in H.
  specialize (H ltac:(lia)). by apply bool_decide_eq_true in H.
Qed.

Lemma closedBefore_spec tag text n :
  closedBefore tag text n = true ->
  forall i m, i < n -> fencedMatch tag (drop i text) = Some m -> i + m <= n.
Proof.
  unfold closedBefore. rewrite forallb_forall. intros H i m Hi Hm.
  specialize (H i). rewrite in_seq in H. specialize (H ltac:(lia)).
  unfold regionAt in H. rewrite Hm in H. by apply Nat.leb_le in H.
Qed.

(** A text in which the opening fence occurs nowhere is left as it is. *)
Lemma strip_no_opening tag text :
  indexOf (opening tag) text = None -> strip tag text = text.
Proof.
  intros H. apply strip_id. intros i _.
  destruct (fencedMatch tag (drop i text)) as [m|] eqn:Hm; [|done].
  apply fencedMatch_Some in Hm as [Ho _].
  by rewrite (indexOf_None _ _ i H) in Ho.
Qed.

(** An opening fence with no three backticks behind it begins no match,
    and neither does any index behind it. *)
Lemma strip_unclosed tag rest :
  indexOf fence (tag ++ rest) = None ->
  strip tag (opening tag ++ rest) = opening tag ++ rest.
Proof.
  intros H. apply strip_id. intros i _.
  destruct (fencedMatch tag (drop i (opening tag ++ rest))) as [m|] eqn:Hm; [|done].
  apply fencedMatch_Some in Hm as (_ & k & [Hk _]%indexOf_Some & _).
  rewrite !drop_drop in Hk.
  assert (drop (i + (length (opening tag) + k)) (opening tag ++ rest)
          = drop (i + length tag + k) (tag ++ rest)) as Hdrop.
  { unfold opening. rewrite <- app_assoc.
    replace (i + (length (fence ++ tag) + k)) with (length fence + (i + length tag + k))
      by (rewrite length_app; lia).
    by rewrite <- drop_drop, drop_app_length. }
  rewrite Hdrop in Hk. by rewrite (indexOf_None _ _ _ H) in Hk.
Qed.

(** The block at the head of the text is one match. *)
Lemma fencedMatch_block tag body suffix :
  closesAtNext body ->
  fencedMatch tag (opening tag ++ body ++ fence ++ suffix)
  = Some (length (opening tag ++ body ++ fence)).
Proof.
  intros H. apply fencedMatch_Some. split; [apply startsWith_app|].
  exists (length body). rewrite drop_app_length. split.
  - rewrite app_assoc. by apply indexOf_app_Some.
  - rewrite !length_app. change (length fence) with 3. lia.
Qed.

Lemma strip_one_block tag prefix body suffix :
  closesAtNext body ->
  noRegionBefore tag (prefix ++ (opening tag ++ body ++ fence) ++ suffix) (length prefix) = true ->
  noRegionBefore tag suffix (length suffix) = true ->
  strip tag (prefix ++ (opening tag ++ body ++ fence) ++ suffix) = prefix ++ suffix.
Proof.
  intros Hbody Hpre Hsuf.
  rewrite strip_copy_prefix by by apply noRegionBefore_spec.
  f_equal. rewrite <- !app_assoc.
  rewrite (strip_match _ _ _ (fencedMatch_block tag body suffix Hbody)).
  rewrite !app_assoc, drop_app_length.
  apply strip_id. by apply noRegionBefore_spec.
Qed.

(** C9. For a text [prefix ++ block ++ suffix] whose [block] is a fenced
    region tagged [tag] (opening fence, body, and as closing fence the next
    three backticks) and the only one: no fenced region of the text begins
    inside [prefix] (one that did, and ran into the block, would be a
    second region of the text) and [suffix] contains none.  Then [strip]
    returns [prefix ++ suffix]: the block goes, fences included, and the
    text around it is joined. *)
Theorem strip_removes_the_block tag prefix body suffix :
  let block := opening tag ++ body ++ fence in
  closesAtNext body ->
  noRegionBefore tag (prefix ++ block ++ suffix) (length prefix) = true ->
  noRegionBefore tag suffix (length suffix) = true ->
  strip tag (prefix ++ block ++ suffix) = prefix ++ suffix.
Proof. intros block. apply strip_one_block. Qed.

Lemma strip_removes_the_block_witness :
  strip BUTTON (text_of ["intro"; "```button"; "Do X"; "```"; "rest"]%string)
  = text_of ["intro"; ""; "rest"]%string.
Proof.
  change (strip BUTTON ((lit "intro" ++ [LF])
            ++ (opening BUTTON ++ ([LF] ++ lit "Do X" ++ [LF]) ++ fence)
            ++ [LF] ++ lit "rest")
          = (lit "intro" ++ [LF]) ++ [LF] ++ lit "rest").
  apply strip_removes_the_block; vm_compute; reflexivity.
Defined.




(** C8, as the code has it.  An opening fence with no three backticks
    behind it stays, with all that follows it, when every fenced region
    that begins before it is also closed before it. *)
Theorem strip_keeps_unterminated tag pre rest :
  indexOf fence (tag ++ rest) = None ->
  closedBefore tag (pre ++ opening tag ++ rest) (length pre) = true ->
  strip tag (pre ++ opening tag ++ rest) = strip tag pre ++ opening tag ++ rest.
Proof.
  intros Hrest Hpre. rewrite strip_app by by apply closedBefore_spec.
  by rewrite strip_unclosed.
Qed.

Lemma strip_keeps_unterminated_witness :
  strip BUTTON (text_of ["```button"; "A"; "```"; "```button"; "B"]%string)
  = text_of [""; "```button"; "B"]%string.
Proof.
  set (pre := lit "```button" ++ [LF] ++ lit "A" ++ [LF] ++ lit "```" ++ [LF]).
  change (strip BUTTON (pre ++ opening BUTTON ++ [LF] ++ lit "B")
          = strip BUTTON pre ++ opening BUTTON ++ [LF] ++ lit "B").
  apply strip_keeps_unterminated; vm_compute; reflexivity.
Defined.

(** C8, as stated, fails: the second opening fence below has no three
    backticks behind it, yet [strip] takes its backticks as the closing
    fence of the first one. *)
Lemma strip_unterminated_counterexample :
  let pre := lit "```button a " in
  let rest := lit " b" in
  indexOf fence (BUTTON ++ rest) = None /\
  strip BUTTON (pre ++ opening BUTTON ++ rest) = lit "button b" /\
  ~ exists out, strip BUTTON (pre ++ opening BUTTON ++ rest) = out ++ opening BUTTON ++ rest.
Proof.
  split; [vm_compute; reflexivity|]. split; [vm_compute; reflexivity|].
  intros [out H]. apply (f_equal length) in H. rewrite length_app in H.
  assert (length (strip BUTTON (lit "```button a " ++ opening BUTTON ++ lit " b")) = 8)
    as Hl by (vm_compute; reflexivity).
  assert (length (opening BUTTON ++ lit " b") = 11) as Hr by (vm_compute; reflexivity).
  rewrite Hl, Hr in H. lia.
Qed.

(** ** Trimming *)

Lemma dropWhile_length {A} (p : A -> bool) l : length (dropWhile p l) <= length l.
Proof. induction l as [|x l IH]; simpl; [done|]. destruct (p x); simpl; lia. Qed.

Lemma dropWhile_head {A} (p : A -> bool) l c r : dropWhile p l = c :: r -> p c = false.
Proof.
  induction l as [|x l IH]; simpl; [done|].
  destruct (p x) eqn:E; [done|]. by intros [= <- _].
Qed.

Lemma dropWhile_idem {A} (p : A -> bool) l : dropWhile p (dropWhile p l) = dropWhile p l.
Proof.
  destruct (dropWhile p l) as [|c r] eqn:E; [done|].
  simpl. by rewrite (dropWhile_head _ _ _ _ E).
Qed.

Lemma dropWhile_snoc {A} (p : A -> bool) l c :
  p c = false -> dropWhile p (l ++ [c]) = dropWhile p l ++ [c].
Proof.
  intros Hc. induction l as [|x l IH]; simpl; [by rewrite Hc|].
  by destruct (p x).
Qed.


Lemma trimEnd_cons c r : isWhiteSpace c = false -> trimEnd (c :: r) = c :: trimEnd r.
Proof.
  intros Hc. unfold trimEnd. simpl. rewrite dropWhile_snoc by done.
  by rewrite rev_app_distr.
Qed.


Lemma trimEnd_idem s : trimEnd (trimEnd s) = trimEnd s.
Proof. unfold trimEnd. by rewrite rev_involutive, dropWhile_idem. Qed.

Lemma trimEnd_last s c r : trimEnd s = r ++ [c] -> isWhiteSpace c = false.
Proof.
  unfold trimEnd. intros H. apply (f_equal (@rev _)) in H.
  rewrite rev_involutive, rev_app_distr in H. simpl in H.
  by apply dropWhile_head in H.
Qed.


(** [trim] returns a text without white space at its ends. *)
Lemma trim_trimmed s : trimmed (trim s).
Proof.
  unfold trim, trimStart. split.
  - intros c r H. destruct (dropWhile isWhiteSpace s) as [|d u] eqn:E; [done|].
    pose proof (dropWhile_head _ _ _ _ E) as Hd.
    rewrite trimEnd_cons in H by done. by injection H as <- _.
  - intros c r H. by apply trimEnd_last in H.
Qed.

Lemma trimmed_trimStart s : trimmed s -> trimStart s = s.
Proof.
  intros [H _]. destruct s as [|c r]; [done|].
  unfold trimStart. simpl. by rewrite (H c r eq_refl).
Qed.

Lemma trimmed_trimEnd s : trimmed s -> trimEnd s = s.
Proof.
  intros [_ H]. destruct s as [|c r _] using rev_ind; [done|].
  unfold trimEnd. rewrite rev_app_distr. simpl. rewrite (H c r eq_refl).
  change (c :: rev r) with (rev [c] ++ rev r). by rewrite <- rev_app_distr, rev_involutive.
Qed.

Lemma trim_of_trimmed s : trimmed s -> trim s = s.
Proof. intros H. unfold trim. by rewrite trimmed_trimStart, trimmed_trimEnd. Qed.


(** ** TransformPipeline *)


(** ** Lines *)

Lemma split_cons sep t : exists l ls, split sep t = l :: ls.
Proof.
  induction t as [|c t IH]; simpl; [by eexists _, _|].
  destruct (c =? sep)%N; [by eexists _, _|].
  destruct IH as (l & ls & ->). by eexists _, _.
Qed.

Lemma join_cons sep l l' ls : join sep (l :: l' :: ls) = l ++ sep :: join sep (l' :: ls).
Proof. done. Qed.

(** Joining the lines of a text gives the text back. *)
Lemma join_split sep t : join sep (split sep t) = t.
Proof.
  induction t as [|c t IH]; [done|]. cbn [split].
  destruct (split_cons sep t) as (l & ls & E). rewrite E in IH |- *.
  destruct (c =? sep)%N eqn:Ec.
  - apply N.eqb_eq in Ec as ->. by rewrite <- IH.
  - rewrite <- IH. by destruct ls.
Qed.

Lemma split_In sep t l x : In l (split sep t) -> In x l -> In x t.
Proof.
  revert l. induction t as [|c t IH]; intros l; simpl.
  - by intros [<-|[]].
  - destruct (c =? sep)%N.
    + intros [<-|Hl]; [done|]. right. by apply (IH l).
    + destruct (split_cons sep t) as (l0 & ls & E). rewrite E in IH |- *.
      intros [<-|Hl].
      * intros [<-|Hx]; [by left|]. right. apply (IH l0); [by left|done].
      * right. apply (IH l); [by right|done].
Qed.

(** ** EmptySectionPruner *)

Lemma isHeading_hash l : isHeading l = true -> exists r, l = HASH :: r.
Proof.
  destruct l as [|c r]; [done|]. unfold isHeading.
  intros [Hc%N.eqb_eq _]%andb_true_iff. subst. by exists r.
Qed.

(** A heading line is not blank. *)
Lemma isHeading_hasText l : isHeading l = true -> hasText l = true.
Proof.
  intros [r ->]%isHeading_hash. unfold hasText, trim, trimStart. simpl.
  by rewrite trimEnd_cons.
Qed.

Lemma pruneLoop_skip k ls : pruneLoop k ls = pruneLoop 0 (drop k ls).
Proof.
  revert ls. induction k as [|k IH]; intros ls; [done|].
  destruct ls as [|l ls]; [done|]. simpl. apply IH.
Qed.

Lemma pruneLoop_preamble pre r :
  (forall l, In l pre -> isHeading l = false) ->
  pruneLoop 0 (pre ++ r) = pre ++ pruneLoop 0 r.
Proof.
  induction pre as [|l pre IH]; intros H; [done|].
  simpl. rewrite (H l) by by left. f_equal. apply IH. intros l' Hl'. apply H. by right.
Qed.

Lemma sectionsOf_lines ls :
  ls = fst (sectionsOf ls) ++ linesOf (snd (sectionsOf ls)).
Proof.
  induction ls as [|l ls IH]; [done|]. simpl.
  destruct (sectionsOf ls) as [pre secs]. simpl in IH.
  destruct (isHeading l); simpl; by rewrite IH at 1.
Qed.

Lemma sectionsOf_preamble ls l :
  In l (fst (sectionsOf ls)) -> isHeading l = false.
Proof.
  induction ls as [|l' ls IH]; simpl; [done|].
  destruct (sectionsOf ls) as [pre secs]. simpl in IH.
  destruct (isHeading l') eqn:E; simpl; [done|].
  intros [<-|H]; [done|]. by apply IH.
Qed.

Lemma scanSection_sectionsOf ls :
  scanSection ls
  = (length (fst (sectionsOf ls)), existsb hasText (fst (sectionsOf ls))).
Proof.
  induction ls as [|l ls IH]; [done|]. simpl.
  destruct (sectionsOf ls) as [pre secs]. simpl in IH.
  destruct (isHeading l); [done|]. by rewrite IH.
Qed.

(** The loop keeps the lines the specification keeps. *)
Lemma pruneLoop_keptLines ls : pruneLoop 0 ls = keptLines ls.
Proof.
  unfold keptLines. induction ls as [|l ls IH]; [done|].
  pose proof (sectionsOf_lines ls) as Hls.
  pose proof (sectionsOf_preamble ls) as Hpre.
  pose proof (scanSection_sectionsOf ls) as Hscan.
  cbn [pruneLoop sectionsOf]. rewrite Hscan.
  destruct (sectionsOf ls) as [pre secs]. simpl in *.
  destruct (isHeading l) eqn:El; simpl; [|by rewrite IH].
  destruct (existsb hasText pre); [by rewrite IH|].
  rewrite pruneLoop_skip. rewrite Hls at 1. rewrite drop_app_length.
  rewrite Hls, pruneLoop_preamble in IH by done.
  by apply app_inv_head in IH.
Qed.

Lemma sectionsOf_cons l ls :
  sectionsOf (l :: ls)
  = if isHeading l then ([], (l, fst (sectionsOf ls)) :: snd (sectionsOf ls))
    else (l :: fst (sectionsOf ls), snd (sectionsOf ls)).
Proof. simpl. by destruct (sectionsOf ls). Qed.

Lemma sectionsOf_app_heading l1 h r :
  isHeading h = true ->
  sectionsOf (l1 ++ h :: r)
  = (fst (sectionsOf l1), snd (sectionsOf l1) ++ snd (sectionsOf (h :: r))).
Proof.
  intros Hh. induction l1 as [|l l1 IH].
  - rewrite app_nil_l. by rewrite sectionsOf_cons, Hh.
  - rewrite <- app_comm_cons, !(sectionsOf_cons l), IH. by destruct (isHeading l).
Qed.

(** The lines kept before a heading do not depend on what follows it. *)
Lemma keptLines_app_heading l1 h r :
  isHeading h = true -> keptLines (l1 ++ h :: r) = keptLines l1 ++ keptLines (h :: r).
Proof.
  intros Hh. unfold keptLines. rewrite sectionsOf_app_heading by done.
  destruct (sectionsOf l1) as [pre secs]. simpl. rewrite Hh.
  destruct (sectionsOf r) as [pre' secs']. simpl.
  by rewrite flat_map_app, app_assoc.
Qed.

Lemma sectionsOf_no_heading ls :
  (forall l, In l ls -> isHeading l = false) -> sectionsOf ls = (ls, []).
Proof.
  induction ls as [|l ls IH]; intros H; [done|]. simpl.
  rewrite IH by (intros l' Hl'; apply H; by right).
  by rewrite (H l) by by left.
Qed.

Lemma keptLines_section h body :
  isHeading h = true -> (forall l, In l body -> isHeading l = false) ->
  keptLines (h :: body) = keep (h, body).
Proof.
  intros Hh Hb. unfold keptLines. simpl. rewrite sectionsOf_no_heading by done.
  rewrite Hh. simpl. by rewrite app_nil_r.
Qed.

(** C5. [removeEmptySections] keeps the lines before the first heading and
    the sections with a line that is not blank, whole and in order, and
    drops every other section whole, whatever the level of its heading.
    So a heading followed by blank lines only up to the end of the text
    goes with those lines, and a heading with a line that is not blank
    before the next heading or the end stays, with every line of its
    section. *)
Theorem removeEmptySections_spec text :
  removeEmptySections text = EmptySectionPruner text /\
  (forall before heading blanks,
     split LF text = before ++ heading :: blanks ->
     isHeading heading = true ->
     (forall l, In l blanks -> hasText l = false) ->
     removeEmptySections text = join LF (keptLines before)) /\
  (forall before heading body after,
     split LF text = before ++ heading :: body ++ after ->
     isHeading heading = true ->
     (forall l, In l body -> isHeading l = false) ->
     (exists l, In l body /\ hasText l = true) ->
     (after = [] \/ exists h r, after = h :: r /\ isHeading h = true) ->
     removeEmptySections text
     = join LF (keptLines before ++ heading :: body ++ keptLines after)).
Proof.
  assert (Hspec : removeEmptySections text = EmptySectionPruner text).
  { unfold removeEmptySections, EmptySectionPruner. by rewrite pruneLoop_keptLines. }
  split; [done|]. rewrite Hspec. unfold EmptySectionPruner. split.
  - intros before heading blanks -> Hh Hblank. f_equal.
    rewrite keptLines_app_heading by done.
    assert (Hnh : forall l, In l blanks -> isHeading l = false).
    { intros l Hl. destruct (isHeading l) eqn:E; [|done].
      apply isHeading_hasText in E. by rewrite (Hblank l Hl) in E. }
    rewrite keptLines_section by done. simpl.
    assert (existsb hasText blanks = false) as ->; [|by rewrite app_nil_r].
    apply not_true_is_false. intros (l & Hl & Ht)%existsb_exists.
    by rewrite (Hblank l Hl) in Ht.
  - intros before heading body after -> Hh Hbody (l & Hl & Ht) Hafter. f_equal.
    rewrite keptLines_app_heading by done. f_equal.
    assert (Hkeep : keep (heading, body) = heading :: body).
    { simpl. assert (existsb hasText body = true) as ->; [|done].
      apply existsb_exists. by exists l. }
    destruct Hafter as [->|(h & r & -> & Hh')].
    + rewrite app_nil_r, keptLines_section by done. by rewrite Hkeep, app_nil_r.
    + change (heading :: body ++ h :: r) with ((heading :: body) ++ h :: r).
      rewrite keptLines_app_heading, keptLines_section by done.
      by rewrite Hkeep.
Qed.

Lemma removeEmptySections_spec_witness :
  removeEmptySections (text_of ["intro"; "## Empty"; ""; "  "]%string) = lit "intro" /\
  removeEmptySections (text_of ["# Gone"; ""; "## Filled"; "Hello"; ""]%string)
  = text_of ["## Filled"; "Hello"; ""]%string.
Proof.
  split.
  - apply (proj1 (proj2 (removeEmptySections_spec _)) [lit "intro"] (lit "## Empty")
             [[]; lit "  "]); [reflexivity..|].
    intros l [<-|[<-|[]]]; reflexivity.
  - apply (proj2 (proj2 (removeEmptySections_spec _)) [lit "# Gone"; []] (lit "## Filled")
             [lit "Hello"; []] []); [reflexivity..| | |by left].
    + intros l [<-|[<-|[]]]; reflexivity.
    + exists (lit "Hello"). split; [by left|reflexivity].
Defined.

(** ** Idempotence *)

Lemma contains_false c s : contains c s = false <-> ~ In c s.
Proof.
  unfold contains. split.
  - intros H Hin. assert (existsb (N.eqb c) s = true); [|congruence].
    apply existsb_exists. exists c. by rewrite N.eqb_refl.
  - intros H. apply not_true_is_false. intros (x & Hx & ->%N.eqb_eq)%existsb_exists. done.
Qed.

(** Without a backtick in the text there is no opening fence. *)
Lemma strip_no_backtick tag text : contains BACKTICK text = false -> strip tag text = text.
Proof.
  intros H%contains_false. apply strip_no_opening, indexOf_None_intro. intros j.
  destruct (drop j text) as [|c r] eqn:E; [done|].
  assert (In c text) as Hc.
  { rewrite <- (take_drop j text), E. apply in_or_app. right. by left. }
  change (startsWith (opening tag) (c :: r))
    with ((BACKTICK =? c)%N && startsWith ([BACKTICK; BACKTICK] ++ tag) r).
  destruct (N.eqb_spec BACKTICK c) as [<-|]; [by destruct H|done].
Qed.

Lemma pruneLoop_no_heading ls :
  (forall l, In l ls -> isHeading l = false) -> pruneLoop 0 ls = ls.
Proof.
  intros H. rewrite <- (app_nil_r ls) at 1.
  rewrite pruneLoop_preamble by done. by rewrite app_nil_r.
Qed.

(** Without a [#] in the text there is no heading. *)
Lemma removeEmptySections_no_hash text :
  contains HASH text = false -> removeEmptySections text = text.
Proof.
  intros H%contains_false. unfold removeEmptySections.
  rewrite pruneLoop_no_heading; [apply join_split|].
  intros l Hl. destruct (isHeading l) eqn:E; [|done].
  apply isHeading_hash in E as [r ->].
  destruct H. apply (split_In LF text (HASH :: r)); [done|by left].
Qed.


Lemma applyTransforms_nothingToMatch settings text :
  nothingToMatch settings text = true ->
  applyTransforms settings text = trim text ++ [LF].
Proof.
  unfold nothingToMatch, applyTransforms.
  intros [Hb Hh]%andb_true_iff.
  assert (Hprune : (if removeEmptySectionsFlag settings
                    then removeEmptySections text else text) = text).
  { destruct (removeEmptySectionsFlag settings); [|done].
    apply removeEmptySections_no_hash. simpl in Hh. by apply negb_true_iff in Hh. }
  destruct (removeButtons settings), (removeTaskQueries settings); simpl in Hb;
    try apply negb_true_iff in Hb;
    rewrite ?(strip_no_backtick _ _ Hb); by rewrite Hprune.
Qed.




(** With the three flags off there is nothing to match in any text. *)
Lemma nothingToMatch_flags_off settings text :
  removeButtons settings = false -> removeTaskQueries settings = false ->
  removeEmptySectionsFlag settings = false ->
  nothingToMatch settings text = true.
Proof. intros Hb Ht Hp. unfold nothingToMatch. by rewrite Hb, Ht, Hp. Qed.


(** Pruning alone is not idempotent either: the trim turns an indented
    line into a heading, and the newline appended gives it an empty
    section. *)
Lemma pruning_not_idempotent :
  let settings := {| dailyNotesFolder := []; daysAfter := 7; removeButtons := false;
                     removeTaskQueries := false; removeEmptySectionsFlag := true |} in
  let text := lit " # A" in
  applyTransforms settings text = lit "# A" ++ [LF] /\
  applyTransforms settings (applyTransforms settings text) = [LF].
Proof. vm_compute. split; reflexivity. Qed.

Lemma task_stripping_not_idempotent :
  let settings := {| dailyNotesFolder := []; daysAfter := 7; removeButtons := false;
                     removeTaskQueries := true; removeEmptySectionsFlag := false |} in
  let text := lit "`````tasks````tasks x```" in
  applyTransforms settings text = lit "```tasks x```" ++ [LF] /\
  applyTransforms settings (applyTransforms settings text) = [LF].
Proof. vm_compute. split; reflexivity. Qed.

(** ** AgeClassifier *)

Lemma matchDate_None s :
  (forall i, isDateShape (drop i s) = false) -> matchDate s = None.
Proof.
  induction s as [|c s IH]; intros H; [done|].
  pose proof (H 0) as H0. change (drop 0 (c :: s)) with (c :: s) in H0.
  cbn [matchDate]. rewrite H0. apply IH. intros i. apply (H (S i)).
Qed.

Lemma matchDate_first s i :
  isDateShape (drop i s) = true ->
  (forall j, j < i -> isDateShape (drop j s) = false) ->
  matchDate s = Some (take 10 (drop i s)).
Proof.
  revert i. induction s as [|c s IH]; intros i Hi Hlt.
  - by rewrite drop_nil in Hi.
  - destruct i as [|i].
    + change (drop 0 (c :: s)) with (c :: s) in *. cbn [matchDate]. by rewrite Hi.
    + pose proof (Hlt 0 ltac:(lia)) as H0. change (drop 0 (c :: s)) with (c :: s) in H0.
      cbn [matchDate]. rewrite H0. apply IH; [done|].
      intros j Hj. apply (Hlt (S j)). lia.
Qed.

(** The comparison of the quotient with the threshold, on integers. *)
Lemma days_elapsed_le (T elapsed_ms : Z) :
  Qle_bool (inject_Z T) (elapsed_ms # 86400000) = true
  <-> (T * 86400000 <= elapsed_ms)%Z.
Proof. rewrite Qle_bool_iff. unfold Qle. simpl. lia. Qed.

(** Every engine takes the days of the calendar, and none takes a month
    outside 1 to 12 or a day outside 1 to 31. *)
Lemma accepts_valid engine y m d :
  Date.validDate y m d = true -> Date.accepts engine y m d = true.
Proof.
  destruct engine; [|done]. unfold Date.validDate, Date.accepts.
  intros [[[Hm1 Hm2]%andb_true_iff Hd1]%andb_true_iff Hd2]%andb_true_iff.
  rewrite Hm1, Hm2, Hd1. simpl. apply Z.leb_le. apply Z.leb_le in Hd2.
  assert (Date.daysInMonth y m <= 31)%Z; [|lia].
  unfold Date.daysInMonth. repeat case_match; lia.
Qed.

Lemma accepts_in_bounds engine y m d :
  Date.accepts engine y m d = true -> (1 <= m <= 12 /\ 1 <= d <= 31)%Z.
Proof.
  intros H. destruct engine; simpl in H.
  - apply andb_true_iff in H as [[[Hm1 Hm2]%andb_true_iff Hd1]%andb_true_iff Hd2].
    lia.
  - pose proof (accepts_valid Date.CarryOver y m d H) as H'. simpl in H'.
    apply andb_true_iff in H' as [[[Hm1 Hm2]%andb_true_iff Hd1]%andb_true_iff Hd2].
    lia.
Qed.

(** C3, as the code has it.  Without a substring of the shape [dddd-dd-dd]
    the identifier is not eligible, and neither is it when the engine's
    [Date] takes the first such substring for no date, whatever the
    threshold: a month outside 1 to 12 or a day outside 1 to 31 on every
    engine, a day the month does not have on an engine that rejects it.
    Otherwise it is eligible exactly when the time from midnight UTC of the
    date, as the engine read it, to [now], divided by 24 hours and not
    rounded, is at least the threshold: at exactly the threshold it is, at
    anything less (a date in the future too) it is not. *)
Theorem isOldEnough_spec engine settings now basename :
  let T := daysAfter settings in
  ((forall i, isDateShape (drop i basename) = false) ->
   isOldEnough engine settings now basename = false) /\
  (forall i y m d,
     isDateShape (drop i basename) = true ->
     (forall j, j < i -> isDateShape (drop j basename) = false) ->
     Date.fields (take 10 (drop i basename)) = (y, m, d) ->
     (~ (1 <= m <= 12 /\ 1 <= d <= 31)%Z ->
      isOldEnough engine settings now basename = false) /\
     (engine = Date.Reject -> Date.validDate y m d = false ->
      isOldEnough engine settings now basename = false) /\
     (Date.accepts engine y m d = true ->
      let midnight := Date.UTC y m d in
      let elapsed := ((now - midnight) # 86400000)%Q in
      (isOldEnough engine settings now basename = true <-> (inject_Z T <= elapsed)%Q) /\
      (now = midnight + T * Date.msPerDay ->
       isOldEnough engine settings now basename = true)%Z /\
      (now < midnight + T * Date.msPerDay ->
       isOldEnough engine settings now basename = false)%Z)).
Proof.
  intros T. split.
  - intros H. unfold isOldEnough. by rewrite matchDate_None.
  - intros i y m d Hi Hlt Hf. unfold isOldEnough.
    rewrite (matchDate_first _ _ Hi Hlt). unfold Date.parse. rewrite Hf.
    split; [|split].
    + intros Hout. destruct (Date.accepts engine y m d) eqn:E; [|done].
      by apply accepts_in_bounds in E.
    + intros -> Hinvalid. simpl. by rewrite Hinvalid.
    + intros ->. cbv zeta.
      split; [apply Qle_bool_iff|]. unfold Date.msPerDay. split.
      * intros ->. apply days_elapsed_le. fold T. lia.
      * intros Hlate. apply not_true_is_false. rewrite days_elapsed_le. fold T. lia.
Qed.

Lemma isOldEnough_spec_witness :
  let settings := {| dailyNotesFolder := []; daysAfter := 9; removeButtons := true;
                     removeTaskQueries := true; removeEmptySectionsFlag := true |} in
  let jan10 := Date.UTC 2023 1 10 in
  isOldEnough Date.CarryOver settings jan10 (lit "note 2023-01-01") = true /\
  isOldEnough Date.CarryOver settings (jan10 - 1) (lit "note 2023-01-01") = false /\
  isOldEnough Date.CarryOver settings (Date.UTC 2050 1 1) (lit "note 2023-01-32") = false /\
  isOldEnough Date.Reject settings (Date.UTC 2050 1 1) (lit "note 2023-02-30") = false.
Proof.
  intros settings jan10.
  assert (Hjan1 : forall j, j < 5 -> isDateShape (drop j (lit "note 2023-01-01")) = false)
    by (intros j Hj; do 5 (destruct j as [|j]; [reflexivity|]); lia).
  assert (Hjan32 : forall j, j < 5 -> isDateShape (drop j (lit "note 2023-01-32")) = false)
    by (intros j Hj; do 5 (destruct j as [|j]; [reflexivity|]); lia).
  assert (Hfeb30 : forall j, j < 5 -> isDateShape (drop j (lit "note 2023-02-30")) = false)
    by (intros j Hj; do 5 (destruct j as [|j]; [reflexivity|]); lia).
  destruct (proj2 (isOldEnough_spec Date.CarryOver settings jan10 (lit "note 2023-01-01"))
              5 2023%Z 1%Z 1%Z eq_refl Hjan1 eq_refl) as (_ & _ & Hvalid).
  destruct (Hvalid eq_refl) as (_ & Hexact & _).
  destruct (proj2 (isOldEnough_spec Date.CarryOver settings (jan10 - 1) (lit "note 2023-01-01"))
              5 2023%Z 1%Z 1%Z eq_refl Hjan1 eq_refl) as (_ & _ & Hvalid').
  destruct (Hvalid' eq_refl) as (_ & _ & Hless).
  destruct (proj2 (isOldEnough_spec Date.CarryOver settings (Date.UTC 2050 1 1)
                     (lit "note 2023-01-32"))
              5 2023%Z 1%Z 32%Z eq_refl Hjan32 eq_refl) as (Hbounds & _ & _).
  destruct (proj2 (isOldEnough_spec Date.Reject settings (Date.UTC 2050 1 1)
                     (lit "note 2023-02-30"))
              5 2023%Z 2%Z 30%Z eq_refl Hfeb30 eq_refl) as (_ & Hreject & _).
  split; [|split; [|split]].
  - apply Hexact. reflexivity.
  - apply Hless. reflexivity.
  - apply Hbounds. lia.
  - apply Hreject; reflexivity.
Defined.

(** C3, as stated, fails on V8: 30 February is no day of the calendar,
    yet the identifier is eligible, read as 2 March. *)
Lemma isOldEnough_calendar_counterexample :
  let basename := lit "2023-02-30" in
  Date.validDate 2023 2 30 = false /\
  matchDate basename = Some basename /\
  Date.parse Date.CarryOver basename = Some (Date.UTC 2023 3 2) /\
  isOldEnough Date.CarryOver DEFAULT_SETTINGS (Date.UTC 2023 3 9) basename = true.
Proof. vm_compute. repeat split; reflexivity. Qed.

(** Month 13 and day 32 are no date on any engine, however long ago; 30
    February is none on an engine that rejects it. *)
Example isOldEnough_invalid_dates :
  let now := Date.UTC 2050 1 1 in
  (forall engine,
     isOldEnough engine DEFAULT_SETTINGS now (lit "2023-13-01") = false /\
     isOldEnough engine DEFAULT_SETTINGS now (lit "2023-01-32 notes") = false /\
     isOldEnough engine DEFAULT_SETTINGS now (lit "2024-02-29") = true) /\
  isOldEnough Date.Reject DEFAULT_SETTINGS now (lit "log 2023-02-30") = false.
Proof. split; [intros []|]; vm_compute; repeat split; reflexivity. Qed.

(** End-to-end example 3 of the specification. *)
Example end_to_end_3 :
  let now := Date.UTC 2023 1 10 in
  let threshold T := {| dailyNotesFolder := []; daysAfter := T; removeButtons := true;
                        removeTaskQueries := true; removeEmptySectionsFlag := true |} in
  forall engine,
  isOldEnough engine (threshold 7%Z) now (lit "2023-01-01-note") = true /\
  isOldEnough engine (threshold 9%Z) now (lit "2023-01-01-note") = true /\
  isOldEnough engine (threshold 9%Z) (now - 1) (lit "2023-01-01-note") = false /\
  isOldEnough engine (threshold 10%Z) now (lit "2023-01-01-note") = false.
Proof. intros now threshold []; vm_compute; repeat split; reflexivity. Qed.

Example end_to_end_1 :
  applyTransforms DEFAULT_SETTINGS
    (text_of ["```button"; "Do X"; "```"; ""; "# Notes"; ""; "Actual text"; ""]%string)
  = text_of ["# Notes"; ""; "Actual text"; ""]%string.
Proof. vm_compute. reflexivity. Qed.

Example end_to_end_2 :
  applyTransforms DEFAULT_SETTINGS
    (text_of ["# Empty"; ""; ""; "# Filled"; "Hello"; ""]%string)
  = text_of ["# Filled"; "Hello"; ""]%string.
Proof. vm_compute. reflexivity. Qed.

(** ** CleanupOrchestrator *)

Lemma eqb_eq a b : eqb a b = true <-> a = b.
Proof. unfold eqb. apply bool_decide_eq_true. Qed.

Lemma eqb_refl a : eqb a a = true.
Proof. by apply eqb_eq. Qed.

(** A loop keeps every relation between worlds that each of its rounds
    keeps. *)
Lemma forOf_keeps {A} (R : World -> World -> Prop) (body : A -> Async unit) xs :
  (forall w, R w w) ->
  (forall w1 w2 w3, R w1 w2 -> R w2 w3 -> R w1 w3) ->
  (forall x w, In x xs -> R w (snd (body x w))) ->
  forall w, R w (snd (forOf xs body w)).
Proof.
  intros Hrefl Htrans. induction xs as [|x xs IH]; intros Hbody w; [apply Hrefl|].
  simpl. unfold bind. pose proof (Hbody x w ltac:(by left)) as Hx.
  destruct (body x w) as [[[]|e] w1]; simpl in *; [|done].
  apply (Htrans _ w1); [done|]. apply IH. intros y w' Hy. apply Hbody. by right.
Qed.

(** A failure ends the loop: the rounds behind it are not run. *)
Lemma forOf_app {A} (body : A -> Async unit) xs ys w :
  forOf (xs ++ ys) body w
  = match forOf xs body w with
    | (Returned _, w') => forOf ys body w'
    | (Thrown e, w') => (Thrown e, w')
    end.
Proof.
  revert w. induction xs as [|x xs IH]; intros w; [done|].
  simpl. unfold bind. destruct (body x w) as [[[]|e] w1]; [apply IH|done].
Qed.

Lemma untouched_refl p w : untouched p w w.
Proof.
  split; [done|]. exists []. split; [reflexivity|].
  split; [|intros d]; intros [].
Qed.

Lemma untouched_trans p w1 w2 w3 :
  untouched p w1 w2 -> untouched p w2 w3 -> untouched p w1 w3.
Proof.
  intros (Hf & r & Hr & Hread & Hmod) (Hf' & r' & Hr' & Hread' & Hmod').
  split; [congruence|]. exists (r' ++ r). unfold requestsOf in *.
  rewrite Hr', Hr, app_assoc. split; [done|].
  split; [|intros d]; intros []%in_app_or; naive_solver.
Qed.

(** One round of the loop, case by case: the innermost test first. *)
Ltac inner_test :=
  match goal with
  | |- context [if ?b then _ else _] =>
      lazymatch b with
      | context [if _ then _ else _] => fail
      | context [match _ with Some _ => _ | None => _ end] => fail
      | _ => destruct b eqn:?
      end
  | |- context [match ?o with Some _ => _ | None => _ end] =>
      lazymatch o with
      | context [if _ then _ else _] => fail
      | _ => destruct o eqn:?
      end
  end.

Ltac run_step :=
  unfold cleanChild, vaultRead, vaultModify, getTime, notice, record, ret, bind;
  repeat (simpl; inner_test); simpl.

Ltac requests_are :=
  first [ exists []; split; [reflexivity|]
        | eexists [_]; split; [reflexivity|]
        | eexists [_; _]; split; [reflexivity|] ].

Lemma cleanChild_untouched this child w p :
  (forall f, child = File f -> eqb (extension f) MD = true -> path f <> p) ->
  untouched p w (snd (cleanChild this child w)).
Proof.
  intros Hp. destruct child as [f|]; [|apply untouched_refl].
  specialize (Hp f eq_refl). run_step; try apply untouched_refl.
  all: specialize (Hp eq_refl); split; simpl;
    [by rewrite ?lookup_insert_ne|requests_are; simpl; intuition congruence].
Qed.

Lemma unwritten_refl p w : unwritten p w w.
Proof. split; [done|]. exists []. split; [reflexivity|]. intros d []. Qed.

Lemma unwritten_trans p w1 w2 w3 :
  unwritten p w1 w2 -> unwritten p w2 w3 -> unwritten p w1 w3.
Proof.
  intros (Hf & r & Hr & Hmod) (Hf' & r' & Hr' & Hmod').
  split; [congruence|]. exists (r' ++ r). unfold requestsOf in *.
  rewrite Hr', Hr, app_assoc. split; [done|].
  intros d []%in_app_or; naive_solver.
Qed.

(** A round does not write a file whose text the pipeline leaves as it
    is. *)
Lemma cleanChild_unwritten this child w p data :
  files w !! p = Some data ->
  applyTransforms (settings this) data = data ->
  unwritten p w (snd (cleanChild this child w)).
Proof.
  intros Hdata Hclean. destruct child as [f|]; [|apply unwritten_refl].
  run_step; try apply unwritten_refl.
  all: split; simpl;
    [|requests_are; simpl; try (intuition congruence)].
  all: destruct (decide (path f = p)) as [<-|Hne];
    [|try (by rewrite ?lookup_insert_ne); intuition congruence].
  all: simplify_eq.
  all: try match goal with H : negb (eqb _ _) = true |- _ =>
         rewrite Hclean, eqb_refl in H; discriminate H end.
  all: try reflexivity; intuition congruence.
Qed.

Lemma notice_untouched p message w : untouched p w (snd (notice message w)).
Proof.
  split; [done|]. exists [Notice message]. split; [reflexivity|].
  simpl. intuition congruence.
Qed.

(** What every round and every notice keep, the run keeps. *)
Lemma cleanNotes_keeps (R : World -> World -> Prop) this :
  (forall w, R w w) ->
  (forall w1 w2 w3, R w1 w2 -> R w2 w3 -> R w1 w3) ->
  (forall message w, R w (snd (notice message w))) ->
  (forall child w, In child (childrenOf this) -> R w (snd (cleanChild this child w))) ->
  forall w, R w (snd (cleanNotes this w)).
Proof.
  intros Hrefl Htrans Hnotice Hchild w. unfold cleanNotes, childrenOf in *.
  destruct (folderPathOf this) as [|c fp]; [apply Hnotice|].
  destruct (getAbstractFileByPath (app this) (c :: fp)) as [[f|folder children]|];
    [apply Hnotice| |apply Hnotice].
  unfold bind. pose proof (forOf_keeps R (cleanChild this) children Hrefl Htrans
                             (fun x w' Hx => Hchild x w' Hx) w) as Hloop.
  destruct (forOf children (cleanChild this) w) as [[[]|e] w1]; simpl in *; [|done].
  apply (Htrans _ w1); [done|apply Hnotice].
Qed.

(** C7. A document whose text the pipeline leaves as it is, an eligible
    one too, is not written by the run: no write is requested for it and its
    stored text is the same after the run. *)
Theorem cleanNotes_skips_clean_documents this w p data :
  files w !! p = Some data ->
  applyTransforms (settings this) data = data ->
  let w' := snd (cleanNotes this w) in
  files w' !! p = Some data /\
  exists requests, requestsOf w w' requests /\ forall d, ~ In (Modify p d) requests.
Proof.
  intros Hdata Hclean w'.
  assert (files w !! p = Some data -> unwritten p w w') as [Hf Hr]; [|done|].
  - subst w'. apply (cleanNotes_keeps (fun w1 w2 =>
        files w1 !! p = Some data -> unwritten p w1 w2)).
    + intros w1 _. apply unwritten_refl.
    + intros w1 w2 w3 H12 H23 H1. specialize (H12 H1).
      apply (unwritten_trans _ _ w2); [done|]. apply H23.
      destruct H12 as [-> _]. done.
    + intros message w1 _. split; [done|]. exists [Notice message].
      split; [reflexivity|]. simpl. intuition congruence.
    + intros child w1 _ H1. by apply (cleanChild_unwritten _ _ _ _ data).
  - split; [congruence|done].
Qed.

Lemma cleanNotes_skips_clean_documents_witness :
  isOldEnough Date.CarryOver DEFAULT_SETTINGS (Date.UTC 2023 1 20) (basename Sample.jan2)
  = true /\
  let w' := snd (cleanNotes Sample.plugin Sample.world) in
  files w' !! path Sample.jan2 = Some Sample.clean /\
  exists requests, requestsOf Sample.world w' requests /\
    forall d, ~ In (Modify (path Sample.jan2) d) requests.
Proof.
  split; [vm_compute; reflexivity|].
  apply cleanNotes_skips_clean_documents; vm_compute; reflexivity.
Defined.

(** C10. The run reads and writes the documents only: a path that is not
    that of a direct child of the resolved folder with file type [md] (a
    file of another type, a folder, a file inside a subfolder) is not read,
    not written, and keeps its text. *)
Theorem cleanNotes_touches_documents_only this w p :
  ~ In p (List.map path (documents this)) ->
  let w' := snd (cleanNotes this w) in
  files w' !! p = files w !! p /\
  exists requests, requestsOf w w' requests /\
    ~ In (Read p) requests /\ forall d, ~ In (Modify p d) requests.
Proof.
  intros Hp w'. apply (cleanNotes_keeps (untouched p)).
  - apply untouched_refl.
  - apply untouched_trans.
  - apply notice_untouched.
  - intros child w1 Hchild. apply cleanChild_untouched.
    intros f -> Hmd <-. apply Hp. apply in_map. unfold documents.
    apply in_flat_map. exists (File f). split; [done|]. rewrite Hmd. by left.
Qed.

Lemma cleanNotes_touches_documents_only_witness :
  let w' := snd (cleanNotes Sample.plugin Sample.world) in
  (files w' !! path Sample.dec31 = Some Sample.dirty /\
   exists requests, requestsOf Sample.world w' requests /\
     ~ In (Read (path Sample.dec31)) requests /\
     forall d, ~ In (Modify (path Sample.dec31) d) requests) /\
  files w' !! path Sample.jan3 = Some Sample.dirty /\
  files w' !! path Sample.jan1 = Some Sample.clean.
Proof.
  split; [|split; vm_compute; reflexivity].
  apply (cleanNotes_touches_documents_only Sample.plugin Sample.world (path Sample.dec31)).
  vm_compute. intuition discriminate.
Defined.

(** A round fails only on a document that is old enough, at its read or
    at its write, and leaves the stored texts as they are. *)
Lemma cleanChild_Thrown this child w e w' :
  cleanChild this child w = (Thrown e, w') ->
  exists f, child = File f /\ eqb (extension f) MD = true /\
    isOldEnough (engine (app this)) (settings this) (clock (app this) (ticks w))
      (basename f) = true /\
    files w' = files w /\
    ((e = ReadRejected (path f) /\ log w' = Read (path f) :: log w) \/
     (e = ModifyRejected (path f) /\
      exists data, log w' = Modify (path f) data :: Read (path f) :: log w)).
Proof.
  destruct child as [f|]; [|done]. intros H. exists f. split; [done|].
  revert H. run_step; intros [= <- <-]; simpl.
  all: repeat match goal with H : negb _ = false |- _ => apply negb_false_iff in H end.
  all: repeat split; try done; eauto.
Qed.

(** C2, as the code has it.  The run has no handler for a rejected read or
    write: the failure of one document ends the run where it happens.  The
    documents before it have been processed, the stored texts are those
    reached before the failing document, and nothing behind it is read or
    written, whatever follows it in the folder. *)
Theorem cleanNotes_stops_at_failure this before child after w w1 e w2 :
  childrenOf this = before ++ child :: after ->
  forOf before (cleanChild this) w = (Returned tt, w1) ->
  cleanChild this child w1 = (Thrown e, w2) ->
  cleanNotes this w = (Thrown e, w2) /\
  files w2 = files w1 /\
  exists f, child = File f /\
    (log w2 = Read (path f) :: log w1 \/
     exists data, log w2 = Modify (path f) data :: Read (path f) :: log w1).
Proof.
  intros Hchildren Hbefore Hfail. split.
  - unfold cleanNotes, childrenOf in *.
    destruct (folderPathOf this) as [|c fp]; [by destruct before|].
    destruct (getAbstractFileByPath (app this) (c :: fp)) as [[f|folder children]|];
      [by destruct before| |by destruct before].
    subst children. unfold bind. rewrite forOf_app, Hbefore.
    simpl. unfold bind. by rewrite Hfail.
  - apply cleanChild_Thrown in Hfail as (f & -> & _ & _ & Hfiles & Hlog).
    split; [done|]. exists f. split; [done|].
    destruct Hlog as [[_ Hlog]|[_ [data Hlog]]]; eauto.
Qed.

Lemma cleanNotes_stops_at_failure_witness :
  cleanNotes Sample.faulty Sample.world
  = (Thrown (ReadRejected (path Sample.jan1)),
     {| files := files Sample.world; log := [Read (path Sample.jan1)]; ticks := 1 |}).
Proof.
  refine (proj1 (cleanNotes_stops_at_failure Sample.faulty [] (File Sample.jan1)
                   _ Sample.world Sample.world _ _ _ _ _));
    vm_compute; reflexivity.
Defined.

(** C2, as stated, fails: the read of the first document is rejected, and
    the run ends there.  The last document of the folder is old enough, its
    read and its write would go through and the pipeline would change its
    text, yet it is not read and keeps its text. *)
Lemma error_isolation_counterexample :
  let run := cleanNotes Sample.faulty Sample.world in
  In Sample.jan4 (documents Sample.faulty) /\
  isOldEnough Date.CarryOver DEFAULT_SETTINGS (Date.UTC 2023 1 20) (basename Sample.jan4)
  = true /\
  rejectsRead (app Sample.faulty) (path Sample.jan4) = false /\
  applyTransforms DEFAULT_SETTINGS Sample.dirty <> Sample.dirty /\
  fst run = Thrown (ReadRejected (path Sample.jan1)) /\
  ~ In (Read (path Sample.jan4)) (log (snd run)) /\
  files (snd run) !! path Sample.jan4 = Some Sample.dirty.
Proof.
  intros run. split; [vm_compute; tauto|].
  split; [vm_compute; reflexivity|]. split; [vm_compute; reflexivity|].
  split; [vm_compute; discriminate|]. split; [vm_compute; reflexivity|].
  split; [vm_compute; intuition discriminate|vm_compute; reflexivity].
Qed.

(** Without the rejected read the same run cleans that document. *)
Example healthy_run :
  let run := cleanNotes Sample.plugin Sample.world in
  fst run = Returned tt /\
  files (snd run) !! path Sample.jan4 = Some Sample.clean /\
  List.map (fun e => match e with Read _ => 0 | Modify _ _ => 1 | Notice _ => 2 end)
    (rev (log (snd run))) = [0; 1; 0; 0; 1; 2].
Proof. vm_compute. repeat split; reflexivity. Qed.

(** * More of the code *)

(** ** What the transforms never do *)

Lemma strip_sublist tag text : strip tag text `sublist_of` text.
Proof.
  remember (length text) as n eqn:Hn. revert text Hn.
  induction (lt_wf n) as [n _ IH]. intros text ->.
  destruct text as [|c r]; [done|].
  destruct (fencedMatch tag (c :: r)) as [m|] eqn:Hm.
  - rewrite (strip_match _ _ _ Hm). pose proof (fencedMatch_pos _ _ _ Hm).
    transitivity (drop m (c :: r)); [|apply sublist_drop].
    apply (IH (length (drop m (c :: r)))); [|done].
    rewrite length_drop. simpl. lia.
  - rewrite (strip_copy _ _ _ Hm). apply sublist_skip.
    apply (IH (length r)); [simpl; lia|done].
Qed.

(** X1. The scan only deletes: what [strip] returns is the text with some
    units left out, in the same order. *)
Theorem strip_only_deletes tag text : strip tag text `sublist_of` text.
Proof. apply strip_sublist. Qed.

(** A text with a fenced region is shorter after the scan. *)
Lemma strip_shrinks tag text i m :
  fencedMatch tag (drop i text) = Some m -> length (strip tag text) < length text.
Proof.
  revert i. induction text as [|c r IH]; intros i Hi.
  - by rewrite drop_nil in Hi.
  - destruct (fencedMatch tag (c :: r)) as [m'|] eqn:Hm.
    + rewrite (strip_match _ _ _ Hm). pose proof (fencedMatch_pos _ _ _ Hm).
      pose proof (sublist_length _ _ (strip_sublist tag (drop m' (c :: r)))) as Hl.
      rewrite length_drop in Hl. simpl in *. lia.
    + rewrite (strip_copy _ _ _ Hm). destruct i as [|i]; [simpl in Hi; congruence|].
      simpl. specialize (IH i Hi). lia.
Qed.

(** X2. [strip] returns the text as it is exactly when no fenced region
    with the tag begins anywhere in it. *)
Theorem strip_unchanged_iff tag text :
  strip tag text = text <-> forall i, regionAt tag text i = None.
Proof.
  unfold regionAt. split.
  - intros Heq i. destruct (fencedMatch tag (drop i text)) as [m|] eqn:Hm; [|done].
    apply strip_shrinks in Hm. rewrite Heq in Hm. lia.
  - intros H. apply strip_id. intros i _. apply H.
Qed.

(** ** Lines of a text *)

Lemma split_no_sep sep t l : In l (split sep t) -> ~ In sep l.
Proof.
  revert l. induction t as [|c t IH]; intros l; simpl.
  - intros [<-|[]] [].
  - destruct (N.eqb_spec c sep) as [->|Hne].
    + intros [<-|Hl]; [intros []|by apply IH].
    + destruct (split_cons sep t) as (l0 & ls & E). rewrite E in IH |- *.
      intros [<-|Hl].
      * intros [?|Hin]; [done|]. apply (IH l0); [by left|done].
      * apply IH. by right.
Qed.

Lemma split_app_sep sep l t :
  ~ In sep l -> split sep (l ++ sep :: t) = l :: split sep t.
Proof.
  induction l as [|c l IH]; intros Hl; simpl.
  - by rewrite N.eqb_refl.
  - destruct (N.eqb_spec c sep) as [->|Hne]; [destruct Hl; by left|].
    rewrite IH; [done|]. intros Hin. apply Hl. by right.
Qed.

Lemma split_line sep l : ~ In sep l -> split sep l = [l].
Proof.
  induction l as [|c l IH]; intros Hl; [done|]. simpl.
  destruct (N.eqb_spec c sep) as [->|Hne]; [destruct Hl; by left|].
  rewrite IH; [done|]. intros Hin. apply Hl. by right.
Qed.

(** Splitting the join of lines gives the lines back, when there is a line
    and no line holds a separator. *)
Lemma split_join sep ls :
  ls <> [] -> (forall l, In l ls -> ~ In sep l) -> split sep (join sep ls) = ls.
Proof.
  induction ls as [|l ls IH]; intros Hne Hls; [done|].
  destruct ls as [|l' ls].
  - simpl. apply split_line, Hls. by left.
  - rewrite join_cons, split_app_sep by (apply Hls; by left).
    f_equal. apply IH; [done|]. intros k Hk. apply Hls. by right.
Qed.

Lemma join_sublist sep ks ls :
  ks `sublist_of` ls -> join sep ks `sublist_of` join sep ls.
Proof.
  induction 1 as [|l ks ls Hsub IH|l ks ls Hsub IH].
  - done.
  - destruct ks as [|k ks], ls as [|l' ls].
    + done.
    + rewrite join_cons. by apply sublist_inserts_r.
    + apply sublist_length in Hsub. simpl in Hsub. lia.
    + rewrite !join_cons. apply sublist_app; [done|]. by apply sublist_skip.
  - destruct ls as [|l' ls]; [apply sublist_nil_r in Hsub as ->; apply sublist_nil_l|].
    rewrite join_cons. apply sublist_inserts_l. by apply sublist_cons.
Qed.

(** ** Sections, once more *)

Lemma sectionsOf_sections ls h b :
  In (h, b) (snd (sectionsOf ls)) ->
  isHeading h = true /\ forall l, In l b -> isHeading l = false.
Proof.
  induction ls as [|l ls IH]; [done|]. rewrite sectionsOf_cons.
  destruct (isHeading l) eqn:El; simpl; [|done].
  intros [[= <- <-]|Hin]; [|by apply IH].
  split; [done|]. apply sectionsOf_preamble.
Qed.

(** Cutting the lines of a preamble and of sections gives them back. *)
Lemma sectionsOf_linesOf pre secs :
  (forall l, In l pre -> isHeading l = false) ->
  (forall h b, In (h, b) secs ->
     isHeading h = true /\ forall l, In l b -> isHeading l = false) ->
  sectionsOf (pre ++ linesOf secs) = (pre, secs).
Proof.
  intros Hpre Hsecs. revert pre Hpre. induction secs as [|[h b] secs IH]; intros pre Hpre.
  - unfold linesOf. simpl. rewrite app_nil_r. by apply sectionsOf_no_heading.
  - destruct (Hsecs h b ltac:(by left)) as [Hh Hb].
    change (linesOf ((h, b) :: secs)) with (h :: b ++ linesOf secs).
    rewrite sectionsOf_app_heading by done.
    rewrite (sectionsOf_no_heading pre) by done.
    rewrite (sectionsOf_cons h), Hh.
    rewrite (IH ltac:(intros h' b' Hin; apply Hsecs; by right) b) by done.
    done.
Qed.

Lemma flat_map_keep secs : flat_map keep secs = linesOf (List.filter hasContent secs).
Proof.
  induction secs as [|[h b] secs IH]; [done|].
  simpl. unfold hasContent at 1. simpl.
  destruct (existsb hasText b); simpl; by rewrite IH.
Qed.

Lemma keptLines_sublist ls : keptLines ls `sublist_of` ls.
Proof.
  unfold keptLines. pose proof (sectionsOf_lines ls) as Hls.
  destruct (sectionsOf ls) as [pre secs]. simpl in Hls. rewrite Hls.
  apply sublist_app; [done|]. clear Hls.
  induction secs as [|[h b] secs IH]; [done|].
  change (linesOf ((h, b) :: secs)) with ((h :: b) ++ linesOf secs).
  simpl. destruct (existsb hasText b).
  - by apply sublist_skip, sublist_app.
  - by apply (sublist_inserts_l (h :: b)).
Qed.

(** A second pass over the kept lines keeps them all. *)
Lemma keptLines_idempotent ls : keptLines (keptLines ls) = keptLines ls.
Proof.
  pose proof (sectionsOf_preamble ls) as Hpre.
  pose proof (sectionsOf_sections ls) as Hsecs.
  assert (Hkept : keptLines ls
                  = fst (sectionsOf ls) ++ linesOf (List.filter hasContent (snd (sectionsOf ls)))).
  { unfold keptLines. destruct (sectionsOf ls). by rewrite flat_map_keep. }
  rewrite Hkept. unfold keptLines at 1.
  rewrite sectionsOf_linesOf; [|done|].
  - rewrite flat_map_keep. f_equal. f_equal.
    clear. induction (snd (sectionsOf ls)) as [|s secs IH]; [done|]. simpl.
    destruct (hasContent s) eqn:E; simpl; rewrite ?E; by rewrite IH.
  - intros h b Hin. apply Hsecs. by apply filter_In in Hin as [Hin _].
Qed.

Lemma keptLines_content ls l :
  In l ls -> hasText l = true -> isHeading l = false -> In l (keptLines ls).
Proof.
  unfold keptLines. pose proof (sectionsOf_lines ls) as Hls.
  pose proof (sectionsOf_sections ls) as Hsecs.
  destruct (sectionsOf ls) as [pre secs]. simpl in *.
  intros Hin Htext Hnh. rewrite Hls in Hin.
  apply in_or_app. apply in_app_or in Hin as [Hin|Hin]; [by left|]. right.
  apply in_flat_map in Hin as ([h b] & Hs & Hl). apply in_flat_map.
  exists (h, b). split; [done|]. simpl in *.
  destruct Hl as [<-|Hl].
  - destruct (Hsecs _ _ Hs) as [Hh _]. congruence.
  - assert (existsb hasText b = true) as ->; [|by right].
    apply existsb_exists. by exists l.
Qed.

(** ** More on removeEmptySections *)

Lemma removeEmptySections_lines text :
  removeEmptySections text = join LF (keptLines (split LF text)).
Proof. unfold removeEmptySections. by rewrite pruneLoop_keptLines. Qed.

Lemma keptLines_no_LF text l : In l (keptLines (split LF text)) -> ~ In LF l.
Proof.
  intros Hin. apply (split_no_sep LF text).
  apply list_elem_of_In. eapply elem_of_sublist; [|apply keptLines_sublist].
  by apply list_elem_of_In.
Qed.

(** X3. Pruning a pruned text changes nothing: no empty section is left
    behind. *)
Theorem removeEmptySections_idempotent text :
  removeEmptySections (removeEmptySections text) = removeEmptySections text.
Proof.
  rewrite (removeEmptySections_lines text).
  destruct (keptLines (split LF text)) as [|l ls] eqn:E; [done|].
  rewrite removeEmptySections_lines, split_join; [|done|].
  - by rewrite <- E, keptLines_idempotent.
  - rewrite <- E. apply keptLines_no_LF.
Qed.

Lemma removeEmptySections_sublist text : removeEmptySections text `sublist_of` text.
Proof.
  rewrite removeEmptySections_lines.
  rewrite <- (join_split LF text) at 2. apply join_sublist, keptLines_sublist.
Qed.

(** X4. Pruning only deletes, and whole lines at that: the result is the
    join of lines of the text, in their order. *)
Theorem removeEmptySections_only_deletes text :
  removeEmptySections text `sublist_of` text /\
  exists kept, kept `sublist_of` split LF text /\
               removeEmptySections text = join LF kept.
Proof.
  split; [apply removeEmptySections_sublist|].
  rewrite removeEmptySections_lines. eexists. split; [apply keptLines_sublist|done].
Qed.

(** X5. A line that is neither blank nor a heading is never removed. *)
Theorem removeEmptySections_keeps_content text l :
  In l (split LF text) -> hasText l = true -> isHeading l = false ->
  In l (split LF (removeEmptySections text)).
Proof.
  intros Hin Htext Hnh. rewrite removeEmptySections_lines.
  pose proof (keptLines_content _ _ Hin Htext Hnh) as Hkept.
  rewrite split_join; [done| |apply keptLines_no_LF].
  intros E. by rewrite E in Hkept.
Qed.

Lemma removeEmptySections_keeps_content_witness :
  In (lit "Hello") (split LF (removeEmptySections
       (text_of ["# Empty"; ""; "# Filled"; "Hello"; ""]%string))).
Proof.
  apply removeEmptySections_keeps_content; [|reflexivity..].
  vm_compute. tauto.
Defined.

(** ** More on the pipeline *)

Lemma dropWhile_drop {A} (p : A -> bool) l : exists n, dropWhile p l = drop n l.
Proof.
  induction l as [|x l [n IH]]; [by exists 0|]. simpl.
  destruct (p x); [by exists (S n)|by exists 0].
Qed.

Lemma trim_sublist s : trim s `sublist_of` s.
Proof.
  unfold trim, trimEnd, trimStart.
  destruct (dropWhile_drop isWhiteSpace s) as [n ->].
  destruct (dropWhile_drop isWhiteSpace (rev (drop n s))) as [k ->].
  transitivity (drop n s); [|apply sublist_drop].
  rewrite skipn_rev, rev_involutive. apply sublist_take.
Qed.

(** X6. The pipeline adds nothing but the final newline: before it stands
    the text with some units left out, in the same order. *)
Theorem applyTransforms_only_deletes settings text :
  exists core, applyTransforms settings text = core ++ [LF] /\ core `sublist_of` text.
Proof.
  unfold applyTransforms. eexists. split; [done|].
  etransitivity; [apply trim_sublist|].
  assert (Hprune : forall t, (if removeEmptySectionsFlag settings
                              then removeEmptySections t else t) `sublist_of` t).
  { intros t. destruct (removeEmptySectionsFlag settings); [|done].
    apply removeEmptySections_sublist. }
  assert (Hstrip : forall (on : bool) tag t, (if on then strip tag t else t) `sublist_of` t).
  { intros [] tag t; [apply strip_sublist|done]. }
  etransitivity; [apply Hprune|]. etransitivity; apply Hstrip.
Qed.

Lemma dropWhile_all {A} (p : A -> bool) l :
  (forall x, In x l -> p x = true) -> dropWhile p l = [].
Proof.
  induction l as [|x l IH]; intros H; [done|]. simpl.
  rewrite (H x) by by left. apply IH. intros y Hy. apply H. by right.
Qed.

(** X7. A text of white space only, the empty text too, comes out as one
    newline, whatever the settings. *)
Theorem applyTransforms_blank settings text :
  (forall c, In c text -> isWhiteSpace c = true) ->
  applyTransforms settings text = [LF].
Proof.
  intros Hblank. rewrite applyTransforms_nothingToMatch.
  - unfold trim, trimStart. by rewrite dropWhile_all.
  - assert (Hno : forall c, isWhiteSpace c = false -> contains c text = false).
    { intros c Hc. apply contains_false. intros Hin. apply Hblank in Hin. congruence. }
    unfold nothingToMatch. rewrite !Hno by done. by rewrite !orb_true_r.
Qed.

Lemma applyTransforms_blank_witness :
  applyTransforms DEFAULT_SETTINGS (text_of [" "; ""; "  "]%string) = [LF].
Proof.
  apply applyTransforms_blank. intros c Hin. vm_compute in Hin.
  repeat (destruct Hin as [<-|Hin]; [reflexivity|]). destruct Hin.
Defined.

(** ** More on eligibility *)

(** X8. Eligibility is kept by time and by a lower threshold: an identifier
    that is old enough stays so at every later instant and under every
    smaller threshold.  Nothing else of the settings matters. *)
Theorem isOldEnough_monotone engine settings settings' now now' basename :
  (now <= now')%Z ->
  (daysAfter settings' <= daysAfter settings)%Z ->
  isOldEnough engine settings now basename = true ->
  isOldEnough engine settings' now' basename = true.
Proof.
  intros Hnow Hdays. unfold isOldEnough.
  destruct (matchDate basename) as [m|]; [|done].
  destruct (Date.parse engine m) as [fileDate|]; [|done].
  rewrite !days_elapsed_le. lia.
Qed.

Lemma isOldEnough_monotone_witness :
  isOldEnough Date.CarryOver NO_FLAGS_3_DAYS (Date.UTC 2023 1 20) (lit "2023-01-10") = true.
Proof.
  apply (isOldEnough_monotone Date.CarryOver DEFAULT_SETTINGS NO_FLAGS_3_DAYS
           (Date.UTC 2023 1 17)); [vm_compute; discriminate..|vm_compute; reflexivity].
Defined.

(** ** More on the run *)

(** X9. A run that resolves no folder shows one notice and does nothing
    else: "not set" when neither the settings nor the daily-notes core
    plugin name a folder, "not found" with the path when the path names no
    folder (nothing, or a file). *)
Theorem cleanNotes_without_folder this w :
  (folderPathOf this = [] <->
   dailyNotesFolder (settings this) = [] /\
   (dailyNotesOption (app this) = None \/ dailyNotesOption (app this) = Some [])) /\
  (folderPathOf this = [] ->
   cleanNotes this w
   = (Returned tt, {| files := files w; log := Notice NOT_SET :: log w; ticks := ticks w |})) /\
  (folderPathOf this <> [] ->
   (forall p children,
      getAbstractFileByPath (app this) (folderPathOf this) <> Some (Folder p children)) ->
   cleanNotes this w
   = (Returned tt, {| files := files w;
                      log := Notice (NOT_FOUND ++ folderPathOf this) :: log w;
                      ticks := ticks w |})).
Proof.
  split; [|split].
  - unfold folderPathOf, getDefaultDailyNotesFolder.
    destruct (dailyNotesFolder (settings this)); [|naive_solver].
    destruct (dailyNotesOption (app this)) as [[|c folder]|]; naive_solver.
  - unfold cleanNotes. by intros ->.
  - unfold cleanNotes. intros Hne Hnone.
    destruct (folderPathOf this) as [|c fp] eqn:E; [done|].
    destruct (getAbstractFileByPath (app this) (c :: fp)) as [[f|p children]|] eqn:Eg;
      [done| |done].
    by destruct (Hnone p children).
Qed.

Lemma cleanNotes_without_folder_witness :
  let this := {| app := Sample.host [];
                 settings := {| dailyNotesFolder := lit "journal"; daysAfter := 7;
                                removeButtons := true; removeTaskQueries := true;
                                removeEmptySectionsFlag := true |} |} in
  cleanNotes this Sample.world
  = (Returned tt, {| files := files Sample.world;
                     log := [Notice (lit "Folder not found: journal")];
                     ticks := 0 |}).
Proof.
  intros this.
  apply (proj2 (proj2 (cleanNotes_without_folder this Sample.world))); [done|].
  intros p children. vm_compute. discriminate.
Defined.

(** X10. A run creates no file and deletes none: the same paths are stored
    before and after. *)
Theorem cleanNotes_keeps_the_files this w :
  dom (files (snd (cleanNotes this w))) = dom (files w).
Proof.
  apply (cleanNotes_keeps (fun w1 w2 => dom (files w2) = dom (files w1))).
  - done.
  - intros w1 w2 w3. congruence.
  - done.
  - intros child w1 _. destruct child as [f|]; [|done].
    run_step; try done.
    rewrite dom_insert_L.
    match goal with H : files w1 !! path f = Some _ |- _ =>
      apply (elem_of_dom_2 (D := gset (list N))) in H end.
    set_solver.
Qed.

Lemma disciplined_app l1 l2 : disciplined l1 -> disciplined l2 -> disciplined (l1 ++ l2).
Proof. induction 1; intros H2; simpl; try constructor; auto. Qed.

(** X11. The run writes a file only straight after it has read that file. *)
Theorem cleanNotes_reads_before_writing this w :
  exists requests, requestsOf w (snd (cleanNotes this w)) requests /\ disciplined requests.
Proof.
  apply (cleanNotes_keeps (fun w1 w2 =>
           exists requests, requestsOf w1 w2 requests /\ disciplined requests)).
  - intros w1. exists []. split; [reflexivity|constructor].
  - intros w1 w2 w3 (r & Hr & Hd) (r' & Hr' & Hd'). exists (r' ++ r).
    unfold requestsOf in *. rewrite Hr', Hr, app_assoc. split; [done|].
    by apply disciplined_app.
  - intros message w1. exists [Notice message]. split; [reflexivity|repeat constructor].
  - intros child w1 _. destruct child as [f|];
      [|exists []; split; [reflexivity|constructor]].
    run_step.
    all: first [ exists []; split; [reflexivity|repeat constructor]
               | eexists [_]; split; [reflexivity|repeat constructor]
               | eexists [_; _]; split; [reflexivity|repeat constructor] ].
Qed.

(** A document that is not old enough costs a clock reading and nothing
    else. *)
Lemma cleanChild_not_old_enough this f w :
  isOldEnough (engine (app this)) (settings this) (clock (app this) (ticks w)) (basename f)
  = false ->
  cleanChild this (File f) w
  = (Returned tt, {| files := files w; log := log w; ticks :=
       if eqb (extension f) MD then S (ticks w) else ticks w |}).
Proof.
  intros Hyoung. unfold cleanChild, getTime, ret, bind.
  destruct (eqb (extension f) MD); [|by destruct w].
  simpl. by rewrite Hyoung.
Qed.

(** X12. A document that is not old enough at any reading of the clock is
    not read and not written. *)
Theorem cleanNotes_leaves_young_documents this w p :
  (forall f n, In f (documents this) -> path f = p ->
     isOldEnough (engine (app this)) (settings this) (clock (app this) n) (basename f)
     = false) ->
  let w' := snd (cleanNotes this w) in
  files w' !! p = files w !! p /\
  exists requests, requestsOf w w' requests /\
    ~ In (Read p) requests /\ forall d, ~ In (Modify p d) requests.
Proof.
  intros Hyoung w'. apply (cleanNotes_keeps (untouched p)).
  - apply untouched_refl.
  - apply untouched_trans.
  - apply notice_untouched.
  - intros child w1 Hchild.
    destruct child as [f|]; [|apply untouched_refl].
    destruct (eqb (extension f) MD) eqn:Emd.
    + destruct (decide (path f = p)) as [Hp|Hp].
      * rewrite cleanChild_not_old_enough.
        { split; [done|]. exists []. split; [reflexivity|].
          split; [|intros d]; intros []. }
        apply Hyoung; [|done]. unfold documents. apply in_flat_map.
        exists (File f). split; [done|]. rewrite Emd. by left.
      * apply cleanChild_untouched. by intros ? [= <-] _.
    + apply cleanChild_untouched. intros ? [= <-]. congruence.
Qed.

Lemma cleanNotes_leaves_young_documents_witness :
  let this := {| app := Sample.host [];
                 settings := {| dailyNotesFolder := []; daysAfter := 18;
                                removeButtons := true; removeTaskQueries := true;
                                removeEmptySectionsFlag := true |} |} in
  let w' := snd (cleanNotes this Sample.world) in
  files w' !! path Sample.jan4 = Some Sample.dirty /\
  exists requests, requestsOf Sample.world w' requests /\
    ~ In (Read (path Sample.jan4)) requests /\
    forall d, ~ In (Modify (path Sample.jan4) d) requests.
Proof.
  intros this.
  apply (cleanNotes_leaves_young_documents this Sample.world (path Sample.jan4)).
  intros f n Hf Hp. vm_compute in Hf.
  destruct Hf as [<-|[<-|[<-|[]]]]; first [discriminate Hp|reflexivity].
Defined.

Lemma cleanChild_no_notice this child w :
  exists requests, requestsOf w (snd (cleanChild this child w)) requests /\
    forall message, ~ In (Notice message) requests.
Proof.
  destruct child as [f|]; [|exists []; split; [reflexivity|by intros ? []]].
  run_step.
  all: first [ exists []; split; [reflexivity|]
             | eexists [_]; split; [reflexivity|]
             | eexists [_; _]; split; [reflexivity|] ].
  all: simpl; intros message; intuition congruence.
Qed.

(** X13. A run that returns shows one notice, as the last thing it does; a
    run that ends in a failure shows none. *)
Theorem cleanNotes_notice this w :
  exists requests, requestsOf w (snd (cleanNotes this w)) requests /\
    match fst (cleanNotes this w) with
    | Returned _ =>
        exists message rest, requests = Notice message :: rest /\
          forall m, ~ In (Notice m) rest
    | Thrown _ => forall m, ~ In (Notice m) requests
    end.
Proof.
  unfold cleanNotes.
  assert (Hone : forall message, exists requests,
            requestsOf w (snd (notice message w)) requests /\
            exists m rest, requests = Notice m :: rest /\ forall m', ~ In (Notice m') rest).
  { intros message. exists [Notice message]. split; [reflexivity|].
    exists message, []. split; [done|]. by intros ? []. }
  destruct (folderPathOf this) as [|c fp]; [apply Hone|].
  destruct (getAbstractFileByPath (app this) (c :: fp)) as [[f|p children]|];
    [apply Hone| |apply Hone].
  pose proof (forOf_keeps (fun w1 w2 => exists requests, requestsOf w1 w2 requests /\
                             forall m, ~ In (Notice m) requests)
                (cleanChild this) children) as Hloop.
  destruct (Hloop) with (w := w) as (r & Hr & Hnone).
  - intros w1. exists []. split; [reflexivity|by intros ? []].
  - intros w1 w2 w3 (r & Hr & Hn) (r' & Hr' & Hn'). exists (r' ++ r).
    unfold requestsOf in *. rewrite Hr', Hr, app_assoc. split; [done|].
    intros m []%in_app_or; naive_solver.
  - intros child w1 _. apply cleanChild_no_notice.
  - unfold bind. destruct (forOf children (cleanChild this) w) as [[[]|e] w1]; simpl in *.
    + exists (Notice FINISHED :: r). unfold requestsOf in *. simpl. rewrite Hr.
      split; [done|]. by exists FINISHED, r.
    + by exists r.
Qed.

(** One round on a document whose read and write go through. *)
Lemma cleanChild_cleans this now child w :
  (forall n, clock (app this) n = now) ->
  (forall f, In f (documentsOf [child]) ->
     isOldEnough (engine (app this)) (settings this) now (basename f) = true ->
     rejectsRead (app this) (path f) = false /\
     rejectsModify (app this) (path f) = false /\
     is_Some (files w !! path f)) ->
  exists w1, cleanChild this child w = (Returned tt, w1) /\
    forall f, In f (documentsOf [child]) -> files w1 !! path f = cleaned this now w f.
Proof.
  intros Hclock Hok. destruct child as [f|]; [|by eexists].
  unfold documentsOf in *. simpl in *. unfold cleanChild.
  destruct (eqb (extension f) MD); [|by eexists]. simpl in Hok.
  unfold getTime, bind. simpl. rewrite Hclock. unfold cleaned.
  destruct (isOldEnough (engine (app this)) (settings this) now (basename f)) eqn:Eold.
  - destruct (Hok f ltac:(by left) Eold) as (Hread & Hmod & [c Hc]).
    unfold vaultRead, vaultModify, record, ret, bind. simpl. rewrite Hread, Hc. simpl.
    destruct (eqb c (applyTransforms (settings this) c)) eqn:Esame; simpl.
    + eexists. split; [done|]. intros ? [<-|[]]. rewrite Eold. simpl. rewrite Hc. simpl.
      apply eqb_eq in Esame. congruence.
    + rewrite Hmod. eexists. split; [done|]. intros ? [<-|[]]. rewrite Eold. simpl.
      rewrite Hc. simpl. apply lookup_insert_eq.
  - simpl. eexists. split; [done|]. intros ? [<-|[]]. by rewrite Eold.
Qed.

Lemma documentsOf_cons child children :
  documentsOf (child :: children) = documentsOf [child] ++ documentsOf children.
Proof. unfold documentsOf. simpl. by rewrite app_nil_r. Qed.

Lemma forOf_cleans this now children w :
  (forall n, clock (app this) n = now) ->
  NoDup (List.map path (documentsOf children)) ->
  (forall f, In f (documentsOf children) ->
     isOldEnough (engine (app this)) (settings this) now (basename f) = true ->
     rejectsRead (app this) (path f) = false /\
     rejectsModify (app this) (path f) = false /\
     is_Some (files w !! path f)) ->
  exists w', forOf children (cleanChild this) w = (Returned tt, w') /\
    (forall p, ~ In p (List.map path (documentsOf children)) ->
       files w' !! p = files w !! p) /\
    (forall f, In f (documentsOf children) -> files w' !! path f = cleaned this now w f).
Proof.
  intros Hclock. revert w. induction children as [|child children IH]; intros w Hnodup Hok.
  - exists w. by repeat split.
  - rewrite documentsOf_cons in *.
    rewrite map_app in Hnodup. apply NoDup_app in Hnodup as (Hhead & Hdisjoint & Hrest).
    destruct (cleanChild_cleans this now child w Hclock) as (w1 & Hstep & Hclean).
    { intros f Hf. apply Hok. apply in_or_app. by left. }
    assert (Hframe : forall p, ~ In p (List.map path (documentsOf [child])) ->
                               files w1 !! p = files w !! p).
    { intros p Hp. pose proof (cleanChild_untouched this child w p) as [Hfiles _].
      - intros f -> Hmd <-. apply Hp. unfold documentsOf. simpl. rewrite Hmd. by left.
      - by rewrite Hstep in Hfiles. }
    assert (Hother : forall f, In f (documentsOf children) ->
                               files w1 !! path f = files w !! path f).
    { intros f Hf. apply Hframe. intros Hin.
      apply (Hdisjoint (path f)); apply list_elem_of_In; [done|by apply in_map]. }
    destruct (IH w1 Hrest) as (w' & Hloop & Hframe' & Hclean').
    { intros f Hf Hold. rewrite Hother by done. apply Hok; [|done].
      apply in_or_app. by right. }
    exists w'. split; [|split].
    + simpl. unfold bind. by rewrite Hstep.
    + intros p Hp. rewrite map_app in Hp. rewrite Hframe', Hframe; [done| |];
        intros Hin; apply Hp, in_or_app; tauto.
    + intros f [Hf|Hf]%in_app_or.
      * rewrite Hframe'; [by apply Hclean|]. intros Hin.
        apply (Hdisjoint (path f)); apply list_elem_of_In; [by apply in_map|done].
      * rewrite Hclean' by done. unfold cleaned. by rewrite Hother.
Qed.

(** X14. When no two documents share a path, every clock reading is [now],
    and the read and the write of every document that is old enough go
    through, the run returns, and each document holds what the pipeline
    makes of its text if it is old enough, and its text as it was if it is
    not. *)
Theorem cleanNotes_cleans_old_documents this now w :
  (forall n, clock (app this) n = now) ->
  NoDup (List.map path (documents this)) ->
  (forall f, In f (documents this) ->
     isOldEnough (engine (app this)) (settings this) now (basename f) = true ->
     rejectsRead (app this) (path f) = false /\
     rejectsModify (app this) (path f) = false /\
     is_Some (files w !! path f)) ->
  fst (cleanNotes this w) = Returned tt /\
  forall f, In f (documents this) ->
    files (snd (cleanNotes this w)) !! path f = cleaned this now w f.
Proof.
  intros Hclock Hnodup Hok.
  change (documents this) with (documentsOf (childrenOf this)) in *.
  destruct (forOf_cleans this now (childrenOf this) w Hclock Hnodup Hok)
    as (w' & Hloop & _ & Hclean).
  unfold cleanNotes, childrenOf in *.
  destruct (folderPathOf this) as [|c fp]; [done|].
  destruct (getAbstractFileByPath (app this) (c :: fp)) as [[f|p children]|];
    [done| |done].
  unfold bind. rewrite Hloop. done.
Qed.

Lemma cleanNotes_cleans_old_documents_witness :
  fst (cleanNotes Sample.plugin Sample.world) = Returned tt /\
  forall f, In f (documents Sample.plugin) ->
    files (snd (cleanNotes Sample.plugin Sample.world)) !! path f
    = cleaned Sample.plugin (Date.UTC 2023 1 20) Sample.world f.
Proof.
  apply cleanNotes_cleans_old_documents.
  - reflexivity.
  - apply (bool_decide_unpack _). vm_compute. exact I.
  - intros f Hf _. vm_compute in Hf.
    destruct Hf as [<-|[<-|[<-|[]]]]; (split; [reflexivity|split; [reflexivity|]]);
      vm_compute; eauto.
Defined.

(** ** Settings *)


(** X16. After [onload] the folder setting is the folder a run resolves from
    the loaded settings, so the fill-in changes no run; the other settings
    are as loaded. *)
Theorem onload_settings host data :
  let loaded := {| app := host; settings := loadSettings data |} in
  app (onload host data) = host /\
  settings (onload host data) = setDailyNotesFolder (loadSettings data) (folderPathOf loaded) /\
  folderPathOf (onload host data) = folderPathOf loaded.
Proof.
  intros loaded. subst loaded. unfold onload.
  generalize (loadSettings data). intros [folder days buttons tasks sections].
  unfold folderPathOf, getDefaultDailyNotesFolder. cbn.
  destruct folder as [|c folder]; cbn; [|by repeat split].
  destruct (dailyNotesOption host) as [[|d core]|] eqn:E; cbn; rewrite ?E; by repeat split.
Qed.

(** ** The settings tab *)

Lemma number_snoc ds d : Date.number (ds ++ [d]) = (10 * Date.number ds + Date.digit d)%Z.
Proof. unfold Date.number. by rewrite fold_left_app. Qed.

Lemma digit_char v : (0 <= v < 10)%Z ->
  isDigit (48 + Z.to_N v) = true /\ Date.digit (48 + Z.to_N v) = v.
Proof.
  intros Hv. unfold isDigit, Date.digit. split.
  - apply andb_true_iff. split; apply N.leb_le; lia.
  - lia.
Qed.

(** The digits written are digits, at least one, and they spell [n]. *)
Lemma digitsBefore_spec fuel n acc :
  (0 <= n < 10 ^ Z.of_nat fuel)%Z -> (0 < fuel)%nat ->
  exists ds, digitsBefore fuel n acc = ds ++ acc /\ ds <> [] /\
             Forall (fun c => isDigit c = true) ds /\ Date.number ds = n.
Proof.
  revert n acc. induction fuel as [|fuel IH]; intros n acc Hn Hfuel; [lia|].
  cbn [digitsBefore].
  pose proof (Z.mod_pos_bound n 10 ltac:(lia)) as Hmod.
  destruct (digit_char (n mod 10) Hmod) as [Hd Hv].
  destruct (Z.ltb_spec n 10) as [Hsmall|Hbig].
  - exists [(48 + Z.to_N (n mod 10))%N]. repeat split; [done|by constructor|].
    unfold Date.number. simpl. rewrite Hv. rewrite Z.mod_small; lia.
  - destruct (IH (n / 10)%Z ((48 + Z.to_N (n mod 10))%N :: acc)) as (ds & -> & Hne & Hds & Hnum).
    + split; [apply Z.div_pos; lia|].
      apply Z.div_lt_upper_bound; [lia|].
      rewrite Nat2Z.inj_succ, Z.pow_succ_r in Hn; lia.
    + destruct fuel; [|lia]. simpl in Hn. lia.
    + exists (ds ++ [(48 + Z.to_N (n mod 10))%N]). rewrite <- app_assoc.
      split; [done|]. split; [by destruct ds|].
      split; [apply Forall_app; split; [done|by constructor]|].
      rewrite number_snoc, Hnum, Hv. pose proof (Z.div_mod n 10). lia.
Qed.

Lemma log2_fuel n : (0 <= n)%Z -> (n < 10 ^ Z.of_nat (S (Z.to_nat (Z.log2 n))))%Z.
Proof.
  intros Hn. destruct (Z.eq_dec n 0%Z) as [->|Hne]; [done|].
  pose proof (Z.log2_nonneg n) as Hlog.
  pose proof (proj2 (Z.log2_spec n ltac:(lia))) as Hspec.
  rewrite Nat2Z.inj_succ, Z2Nat.id by done.
  eapply Z.lt_le_trans; [exact Hspec|].
  apply Z.pow_le_mono_l. lia.
Qed.

Lemma takeWhile_app {A} (p : A -> bool) ds rest :
  Forall (fun c => p c = true) ds ->
  match rest with c :: _ => p c = false | [] => True end ->
  takeWhile p (ds ++ rest) = ds.
Proof.
  intros Hds Hrest. induction Hds as [|d ds Hd _ IH]; simpl.
  - destruct rest as [|c rest]; [done|]. simpl. by rewrite Hrest.
  - by rewrite Hd, IH.
Qed.

Lemma isDigit_plain c :
  isDigit c = true ->
  isWhiteSpace c = false /\ (c =? MINUS)%N = false /\ (c =? PLUS)%N = false.
Proof.
  unfold isDigit, isWhiteSpace, MINUS, PLUS.
  intros [H1%N.leb_le H2%N.leb_le]%andb_true_iff.
  repeat split; repeat (apply orb_false_iff; split);
    try (apply andb_false_iff; left); try apply N.eqb_neq; try apply N.leb_gt; lia.
Qed.

Lemma parseInt_digits d ds rest :
  Forall (fun c => isDigit c = true) (d :: ds) ->
  match rest with c :: _ => isDigit c = false | [] => True end ->
  parseInt ((d :: ds) ++ rest) = Some (Date.number (d :: ds)) /\
  parseInt (MINUS :: (d :: ds) ++ rest) = Some (- Date.number (d :: ds))%Z.
Proof.
  intros Hds Hrest. pose proof (Forall_inv Hds) as Hd.
  destruct (isDigit_plain d Hd) as (Hws & Hminus & Hplus).
  assert (Htake : takeWhile isDigit ((d :: ds) ++ rest) = d :: ds)
    by by apply takeWhile_app.
  unfold parseInt, trimStart. split.
  - change (dropWhile isWhiteSpace ((d :: ds) ++ rest))
      with (if isWhiteSpace d then dropWhile isWhiteSpace (ds ++ rest)
            else (d :: ds) ++ rest).
    rewrite Hws, <- !app_comm_cons. cbv beta iota.
    rewrite Hminus, Hplus. cbv beta iota delta [orb].
    by rewrite app_comm_cons, Htake.
  - change (dropWhile isWhiteSpace (MINUS :: (d :: ds) ++ rest))
      with (MINUS :: (d :: ds) ++ rest).
    cbv beta iota. rewrite N.eqb_refl. cbv beta iota delta [orb]. by rewrite Htake.
Qed.

(** [parseInt] reads back what [String] shows, whatever follows the
    digits. *)
Lemma parseInt_numberToString n rest :
  match rest with c :: _ => isDigit c = false | [] => True end ->
  parseInt (numberToString n ++ rest) = Some n.
Proof.
  intros Hrest. unfold numberToString.
  destruct (Z.ltb_spec n 0) as [Hneg|Hpos].
  - destruct (digitsBefore_spec (S (Z.to_nat (Z.log2 (- n)))) (- n) [])
      as (ds & -> & Hne & Hds & Hnum); [split; [lia|apply log2_fuel; lia]|lia|].
    rewrite app_nil_r. destruct ds as [|d ds]; [done|].
    rewrite <- app_comm_cons.
    rewrite (proj2 (parseInt_digits d ds rest Hds Hrest)), Hnum. f_equal. lia.
  - destruct (digitsBefore_spec (S (Z.to_nat (Z.log2 n))) n [])
      as (ds & -> & Hne & Hds & Hnum); [split; [lia|by apply log2_fuel]|lia|].
    rewrite app_nil_r. destruct ds as [|d ds]; [done|].
    by rewrite (proj1 (parseInt_digits d ds rest Hds Hrest)), Hnum.
Qed.

(** X17. Typing the number the days field shows, with or without text
    behind it, leaves the settings as they are, for a negative number as
    for any other.  (Up to 2^53 in size [String] shows an integer by all
    its digits.) *)
Theorem onDaysChange_shown settings rest :
  (Z.abs (daysAfter settings) <= 2 ^ 53)%Z ->
  match rest with c :: _ => isDigit c = false | [] => True end ->
  onDaysChange settings (numberToString (daysAfter settings) ++ rest) = settings.
Proof.
  intros _ Hrest. unfold onDaysChange. rewrite parseInt_numberToString by done.
  by destruct settings.
Qed.

Lemma onDaysChange_shown_witness :
  let settings := setDaysAfter DEFAULT_SETTINGS (-3) in
  onDaysChange settings (lit "-3 days") = settings.
Proof.
  intros settings.
  apply (onDaysChange_shown settings (lit " days")); [vm_compute; discriminate|reflexivity].
Defined.




(** X19. The folder field stores the entry without white space at its ends;
    an entry of white space only clears the setting, and the next run
    falls back on the folder of the daily-notes core plugin. *)
Theorem onFolderChange_trims host current value :
  let this := {| app := host; settings := onFolderChange current value |} in
  trimmed (dailyNotesFolder (settings this)) /\
  ((forall c, In c value -> isWhiteSpace c = true) ->
   dailyNotesFolder (settings this) = [] /\
   folderPathOf this = getDefaultDailyNotesFolder this) /\
  (trim value <> [] -> folderPathOf this = trim value).
Proof.
  intros this. subst this. unfold folderPathOf. cbn. split; [apply trim_trimmed|]. split.
  - intros Hblank.
    assert (trim value = []) as ->; [|done].
    unfold trim, trimStart. by rewrite dropWhile_all.
  - by destruct (trim value).
Qed.
